(** * H* benchmark: static (leaky) versus rolling-origin (causal) validation

    A shallow embedding of [src/benchmark/hstar_demo.py], followed by the
    lexical screening of [src/screening/run_screening.py].

    Conventions of the embedding.
    - Python integers are [Z]; a series ([pd.Series] / [np.ndarray] of
      floats) is a [list Qc].  The values of a series are idealised as exact
      rationals, so their rounding, [nan] and [inf] are outside the model.
      The one float that decides an index, the product [len(y) * train_frac]
      of the static protocol, is rounded to binary64 as Python does.
    - An operation that can raise returns [res A]; the exceptions are those
      Python, numpy, pandas and scikit-learn raise on the paths the two
      protocols exercise.
    - A [dict] keyed by horizons is a [gmap Z _]; the only place where the
      order of the keys matters is [compute_hstar], which sorts them.
    - [np.sqrt] and the ridge solver of scikit-learn are not part of the
      repository: they are Variables of the Section [Benchmark], which
      holds the protocols and the theorems about them.
    - For the screening, a text is a list of [ascii] characters read as
      Latin-1, a pattern is a [regex] with the derivative matcher
      [re_search], the random draws of [load_corpus] are arguments, and the
      normal quantile of scipy is one more Variable of the Section. *)

From Stdlib Require Import Ascii.
From stdpp Require Import gmap list numbers sorting strings.
From Stdlib Require Import QArith Qcanon Qround Qabs Qpower Lqa.

Local Open Scope Z_scope.

(** ** Exceptions *)

Inductive exn : Type :=
  | ValueError
  | IndexError
  | KeyError
  | ZeroDivisionError.

Inductive res (A : Type) : Type :=
  | Ok (a : A)
  | Raise (e : exn).
Arguments Ok {A} a.
Arguments Raise {A} e.

#[global] Instance res_ret : MRet res := λ A a, Ok a.
#[global] Instance res_bind : MBind res := λ A B f m,
  match m with
  | Ok a => f a
  | Raise e => Raise e
  end.

(** [for x in xs: s = body x s] with early exit on the first exception. *)
Fixpoint for_each {A S : Type} (xs : list A) (body : A → S → res S) (s : S)
  : res S :=
  match xs with
  | [] => Ok s
  | x :: xs' => s' ← body x s; for_each xs' body s'
  end.

(** ** Python and numpy primitives *)

Definition py_len {A : Type} (l : list A) : Z := Z.of_nat (length l).

(** [l[i]]: a negative index counts from the end, anything outside
    [-len, len) raises [IndexError]. *)
Definition py_index {A : Type} (l : list A) (i : Z) : res A :=
  let j := if decide (i < 0) then i + py_len l else i in
  if decide (j < 0) then Raise IndexError
  else match l !! Z.to_nat j with
       | Some x => Ok x
       | None => Raise IndexError
       end.

(** A slice bound is clipped to [0, len] after a negative one is shifted. *)
Definition slice_bound (len i : Z) : Z :=
  if decide (i < 0) then Z.max (i + len) 0 else Z.min i len.

(** [l[start:stop]] with either bound possibly omitted. *)
Definition py_slice {A : Type} (l : list A) (start stop : option Z) : list A :=
  let len := py_len l in
  let lo := from_option (slice_bound len) 0 start in
  let hi := from_option (slice_bound len) len stop in
  take (Z.to_nat (hi - lo)) (drop (Z.to_nat lo) l).

(** [max(xs)] raises [ValueError] on an empty sequence. *)
Definition py_max (xs : list Z) : res Z :=
  match xs with
  | [] => Raise ValueError
  | x :: xs' => Ok (foldl Z.max x xs')
  end.

(** [range(start, stop, step)] as a list; a zero step raises [ValueError]. *)
Definition py_range (start stop step : Z) : res (list Z) :=
  if decide (step = 0) then Raise ValueError
  else
    let len :=
      if decide (0 < step)
      then (stop - start + step - 1) `div` step
      else (start - stop - step - 1) `div` (- step) in
    Ok ((λ i : nat, start + Z.of_nat i * step) <$> seq 0 (Z.to_nat len)).

(** [int(q)]: truncation toward zero. *)
Definition py_int (q : Qc) : Z := Z.quot (Qnum q) (Zpos (Qden q)).

(** *** Floats that decide an index

    The values of a series are idealised as rationals, but the split index
    of the static protocol is [int()] of a float product, and there the
    rounding decides which index is taken.  [binary64] rounds a rational to
    the nearest IEEE 754 double, ties to even, as Python does when it reads
    a decimal literal, converts an [int] and multiplies two floats; on the
    value of a double it is the identity.  Overflow to infinity is outside
    the model. *)

(** Rounding to the nearest integer, ties to the even one. *)
Definition round_half_even (t : Q) : Z :=
  let f := Qfloor t in
  match (t - inject_Z f ?= 1 # 2)%Q with
  | Lt => f
  | Gt => f + 1
  | Eq => if Z.even f then f else f + 1
  end.

(** [floor (log2 a)] for a positive rational. *)
Definition Qlog2 (a : Q) : Z :=
  let d := Z.log2 (Qnum a) - Z.log2 (Zpos (Qden a)) in
  if Qle_bool (2 ^ d) a then d else d - 1.

(** The unit in the last place of a double of the magnitude of [q]: 53
    significant bits, and [2^-1074] for the subnormal numbers. *)
Definition binary64_ulp (q : Q) : Q :=
  (2 ^ Z.max (Qlog2 (Qabs q) - 52) (-1074))%Q.

Definition binary64 (q : Qc) : Qc :=
  Q2Qc (inject_Z (round_half_even (q / binary64_ulp q)) * binary64_ulp q).

Definition Qc_of_nat (n : nat) : Qc := Qc_of_Z (Z.of_nat n).

Definition np_sum (l : list Qc) : Qc := foldr Qcplus 0%Qc l.

(** [np.mean] / pandas [mean] of a non-empty window. *)
Definition np_mean (l : list Qc) : Qc := (np_sum l / Qc_of_nat (length l))%Qc.

(** [a / b] on Python numbers. *)
Definition py_div (a b : Qc) : res Qc :=
  if decide (b = 0%Qc) then Raise ZeroDivisionError else Ok (a / b)%Qc.

(** [s.rolling(window=w, min_periods=1).mean()]: the trailing mean over the
    last [w] observations up to and including position [i], over all of
    them while fewer than [w] are available. *)
Definition rolling_mean (w : nat) (ys : list Qc) : list Qc :=
  imap (λ i _, np_mean (drop (S i - w) (take (S i) ys))) ys.

(** [np.roll(a, i)]: circular shift to the right by [i] places. *)
Definition np_roll (a : list Qc) (i : nat) : list Qc :=
  match length a with
  | O => []
  | S _ as len => drop (len - i `mod` len)%nat a ++ take (len - i `mod` len)%nat a
  end.

(** [np.column_stack] of columns of equal length (at least one column). *)
Fixpoint column_stack (cols : list (list Qc)) : list (list Qc) :=
  match cols with
  | [] => []
  | [c] => (λ x, [x]) <$> c
  | c :: cs => zip_with cons c (column_stack cs)
  end.

(** ** Skill records and H* *)

Record Entry : Type := mkEntry { rmse : Qc; skill : Qc }.

(** The two lists ['rmse'] and ['skill'] the rolling protocol keeps per
    horizon. *)
Abbreviation Samples := (list Qc * list Qc)%type.

(** The expression [1 - (err_model / err_persist) if err_persist > 0 else 0]
    of both protocols. *)
Definition skill_score (err_model err_persist : Qc) : res Qc :=
  if decide (0 < err_persist)%Qc
  then q ← py_div err_model err_persist; Ok (1 - q)%Qc
  else Ok 0%Qc.

(** The loop of [compute_hstar] over the keys already sorted and reversed. *)
Fixpoint hstar_scan (results : gmap Z Entry) (threshold : Qc) (hs : list Z)
  : res Z :=
  match hs with
  | [] => Ok 0
  | h :: hs' =>
      match results !! h with
      | None => Raise KeyError
      | Some e =>
          if decide (threshold < skill e)%Qc then Ok h
          else hstar_scan results threshold hs'
      end
  end.

Definition compute_hstar (results : gmap Z Entry) (threshold : Qc) : res Z :=
  let horizons := merge_sort Z.le (elements (dom results)) in
  hstar_scan results threshold (reverse horizons).

(** ** A concrete back end and a short series, to run the protocols *)

(** Square root on rationals, exact on squares of rationals. *)
Definition sqrt_floor (q : Qc) : Qc :=
  Q2Qc (Z.sqrt (Qnum q) # Pos.sqrt (Qden q)).

(** A stand-in for the ridge solver: it keeps the mean of the training
    targets and predicts the midpoint of that mean and the feature mean. *)
Definition mean_solve (X : list (list Qc)) (t : list Qc) : Qc := np_mean t.
Definition mean_eval (c : Qc) (x : list Qc) : Qc := ((c + np_mean x) / 2)%Qc.

Definition series0 : list Qc :=
  Qc_of_Z <$> [3; 1; 4; 1; 5; 9; 2; 6; 5; 3].

(** A stand-in for the normal quantile function: the constant 2. *)
Definition const_ppf (q : Qc) : Qc := Qc_of_Z 2.

(** A series of 100 points, the digits 0..6 in turn. *)
Definition series100 : list Qc :=
  (λ i, Qc_of_Z (Z.of_nat i `mod` 7)) <$> seq 0 100.

(** The value of a computation that returned, [d] if it raised. *)
Definition ok_or {A : Type} (d : A) (r : res A) : A :=
  match r with
  | Ok a => a
  | Raise _ => d
  end.

(** ** The two protocols *)

Section Benchmark.

(** [np.sqrt] on the idealised numbers. *)
Variable np_sqrt : Qc → Qc.

(** The ridge solver of scikit-learn ([alpha = 1.0]): the fitted
    coefficients, and their application to one feature row. *)
Variable Estimator : Type.
Variable ridge_solve : list (list Qc) → list Qc → Estimator.
Variable ridge_eval : Estimator → list Qc → Qc.

(** *** scikit-learn wrappers *)

Record StandardScaler : Type := mkScaler { mean_ : Qc; scale_ : Qc }.

(** [StandardScaler().fit]: population variance, a zero scale replaced by 1;
    an empty sample raises. *)
Definition scaler_fit (xs : list Qc) : res StandardScaler :=
  match xs with
  | [] => Raise ValueError
  | _ =>
      let m := np_mean xs in
      let s := np_sqrt (np_mean ((λ x, (x - m) ^ 2)%Qc <$> xs)) in
      Ok (mkScaler m (if decide (s = 0%Qc) then 1%Qc else s))
  end.

Definition scaler_transform (sc : StandardScaler) (xs : list Qc)
  : res (list Qc) :=
  match xs with
  | [] => Raise ValueError
  | _ => Ok ((λ x, (x - mean_ sc) / scale_ sc)%Qc <$> xs)
  end.

Definition scaler_inverse_transform (sc : StandardScaler) (x : Qc) : Qc :=
  (x * scale_ sc + mean_ sc)%Qc.

Record Ridge : Type := mkRidge { n_features_in_ : nat; coef_ : Estimator }.

(** [Ridge(alpha=1.0).fit(X, t)]: no sample, or no feature, raises. *)
Definition Ridge_fit (X : list (list Qc)) (t : list Qc) : res Ridge :=
  match X with
  | [] => Raise ValueError
  | [] :: _ => Raise ValueError
  | row :: _ => Ok (mkRidge (length row) (ridge_solve X t))
  end.

(** [model.predict(x.reshape(1, -1))[0]]: the number of features is checked. *)
Definition Ridge_predict (m : Ridge) (x : list Qc) : res Qc :=
  if decide (length x = n_features_in_ m) then Ok (ridge_eval (coef_ m) x)
  else Raise ValueError.

(** *** Shared steps *)

(** [np.column_stack([np.roll(a, i) for i in range(1, p+1)])[p:]];
    [column_stack] of no column raises. *)
Definition lagged_matrix (a : list Qc) (p : Z) : res (list (list Qc)) :=
  if decide (p ≤ 0) then Raise ValueError
  else Ok (py_slice (column_stack (np_roll a <$> seq 1 (Z.to_nat p)))
             (Some p) None).

(** Scaler and model fitted on a smoothed training signal: the steps both
    protocols spell out (lines 74-86 and 141-155 of the source). *)
Definition fit_model (y_train : list Qc) (p : Z) : res (StandardScaler * Ridge) :=
  scaler ← scaler_fit y_train;
  y_train_scaled ← scaler_transform scaler y_train;
  X_train ← lagged_matrix y_train_scaled p;
  let y_train_target := py_slice y_train_scaled (Some p) None in
  model ← Ridge_fit X_train y_train_target;
  Ok (scaler, model).

(** The one-row forecast: scale the feature window, reverse it, predict,
    undo the scaling (lines 95-101 and 163-169). *)
Definition forecast (fitted : StandardScaler * Ridge) (window : list Qc)
  : res Qc :=
  X_test_h ← scaler_transform fitted.1 window;
  y_pred_scaled ← Ridge_predict fitted.2 (reverse X_test_h);
  Ok (scaler_inverse_transform fitted.1 y_pred_scaled).

(** Errors, skill score and the record of one evaluated sample (lines
    107-116 and 175-182). *)
Definition score (y_pred y_true y_persist : Qc) : res Entry :=
  let err_model := ((y_pred - y_true) ^ 2)%Qc in
  let err_persist := ((y_persist - y_true) ^ 2)%Qc in
  sk ← skill_score err_model err_persist;
  Ok (mkEntry (np_sqrt err_model) sk).

(** *** Static leaky protocol *)

(** [split_idx = int(len(y) * train_frac)]: the length is converted to a
    float, multiplied by the float [train_frac], and the rounded product is
    truncated. *)
Definition static_split_idx (y : list Qc) (train_frac : Qc) : Z :=
  py_int (binary64 (binary64 (Qc_of_Z (py_len y)) * binary64 train_frac)).

(** [y_rolled.iloc[:split_idx]]: the smoothed training signal. *)
Definition static_y_train (y : list Qc) (train_frac : Qc) : list Qc :=
  py_slice (rolling_mean 24 y) None (Some (static_split_idx y train_frac)).

(** [y_pred] of the static protocol (the same for every horizon). *)
Definition static_forecast (y : list Qc) (split_idx p : Z)
    (fitted : StandardScaler * Ridge) : res Qc :=
  forecast fitted
    (py_slice (rolling_mean 24 y) (Some split_idx) (Some (split_idx + p))).

(** The body of the horizon loop below its guard. *)
Definition static_sample (y : list Qc) (split_idx p : Z)
    (fitted : StandardScaler * Ridge) (h : Z) : res Entry :=
  let y_test := py_slice y (Some split_idx) None in
  y_pred ← static_forecast y split_idx p fitted;
  y_true ← py_index y_test (h - 1);
  y_persist ← py_index y (split_idx - 1);
  score y_pred y_true y_persist.

(** One iteration of the horizon loop: the guard, then [results[h] = ...]. *)
Definition static_horizon (y : list Qc) (split_idx p : Z)
    (fitted : StandardScaler * Ridge) (h : Z) (results : gmap Z Entry)
  : res (gmap Z Entry) :=
  if decide (py_len y ≤ split_idx + p + h) then Ok results
  else
    e ← static_sample y split_idx p fitted h;
    Ok (<[h := e]> results).

Definition static_leaky_protocol (y : list Qc) (train_frac : Qc)
    (horizons : list Z) (p : Z) : res (gmap Z Entry) :=
  let split_idx := static_split_idx y train_frac in
  fitted ← fit_model (static_y_train y train_frac) p;
  for_each horizons (static_horizon y split_idx p fitted) ∅.

(** *** Rolling-origin causal protocol *)

(** [y.iloc[:origin].rolling(window=24, min_periods=1).mean()]. *)
Definition rolling_y_train (y : list Qc) (origin : Z) : list Qc :=
  rolling_mean 24 (py_slice y None (Some origin)).

(** [y_pred] at one origin (the same for every horizon). *)
Definition rolling_forecast (y : list Qc) (origin p : Z)
    (fitted : StandardScaler * Ridge) : res Qc :=
  forecast fitted (py_slice (rolling_y_train y origin) (Some (- p)) None).

(** The body of the horizon loop below its guard. *)
Definition rolling_sample (y : list Qc) (origin p : Z)
    (fitted : StandardScaler * Ridge) (h : Z) : res Entry :=
  y_pred ← rolling_forecast y origin p fitted;
  y_true ← py_index y (origin + h - 1);
  y_persist ← py_index y (origin - 1);
  score y_pred y_true y_persist.

(** [results[h]] on a dict. *)
Definition dict_get {V : Type} (d : gmap Z V) (h : Z) : res V :=
  match d !! h with
  | Some v => Ok v
  | None => Raise KeyError
  end.

Definition append_sample (acc : Samples) (e : Entry) : Samples :=
  (acc.1 ++ [rmse e], acc.2 ++ [skill e]).

(** [{h: {'rmse': [], 'skill': []} for h in horizons}]. *)
Definition init_results (horizons : list Z) : gmap Z Samples :=
  foldl (λ d h, <[h := ([], [])]> d) ∅ horizons.

(** One iteration of the horizon loop: the guard, then the two appends. *)
Definition rolling_horizon (y : list Qc) (origin p : Z)
    (fitted : StandardScaler * Ridge) (h : Z) (results : gmap Z Samples)
  : res (gmap Z Samples) :=
  if decide (py_len y ≤ origin + h) then Ok results
  else
    e ← rolling_sample y origin p fitted h;
    acc ← dict_get results h;
    Ok (<[h := append_sample acc e]> results).

(** One iteration of the origin loop. *)
Definition rolling_origin (y : list Qc) (horizons : list Z) (p origin : Z)
    (results : gmap Z Samples) : res (gmap Z Samples) :=
  fitted ← fit_model (rolling_y_train y origin) p;
  for_each horizons (rolling_horizon y origin p fitted) results.

(** [range(W_min, n - max(horizons), step)]. *)
Definition rolling_origins (n : Z) (horizons : list Z) (W_min step : Z)
  : res (list Z) :=
  m ← py_max horizons;
  py_range W_min (n - m) step.

(** One iteration of the aggregation loop. *)
Definition aggregate_body (results : gmap Z Samples) (h : Z)
    (summary : gmap Z Entry) : res (gmap Z Entry) :=
  acc ← dict_get results h;
  if decide (0 < py_len acc.1)
  then Ok (<[h := mkEntry (np_mean acc.1) (np_mean acc.2)]> summary)
  else Ok summary.

Definition aggregate (horizons : list Z) (results : gmap Z Samples)
  : res (gmap Z Entry) :=
  for_each horizons (aggregate_body results) ∅.

Definition rolling_origin_causal_protocol (y : list Qc) (horizons : list Z)
    (W_min step p : Z) : res (gmap Z Entry) :=
  let results := init_results horizons in
  origins ← rolling_origins (py_len y) horizons W_min step;
  results ← for_each origins (rolling_origin y horizons p) results;
  aggregate horizons results.

(** ** Vocabulary of the statements *)

(** Horizon [h] is in the record with a skill strictly above the threshold. *)
Definition exceeds (results : gmap Z Entry) (threshold : Qc) (h : Z) : Prop :=
  ∃ e, results !! h = Some e ∧ (threshold < skill e)%Qc.

(** What the aggregation loop stores for horizon [h]. *)
Definition aggregated (results : gmap Z Samples) (h : Z) : option Entry :=
  match results !! h with
  | Some acc =>
      if decide (0 < py_len acc.1)
      then Some (mkEntry (np_mean acc.1) (np_mean acc.2)) else None
  | None => None
  end.

(** [y_pred] in the iteration of the rolling protocol at one origin. *)
Definition rolling_y_pred (y : list Qc) (origin p : Z) : res Qc :=
  fitted ← fit_model (rolling_y_train y origin) p;
  rolling_forecast y origin p fitted.

(** The sample of origin [origin] at horizon [h], from the series alone. *)
Definition sample_at (y : list Qc) (p origin h : Z) : res Entry :=
  fitted ← fit_model (rolling_y_train y origin) p;
  rolling_sample y origin p fitted h.

(** The samples one origin produces for [h] per occurrence of [h] in the
    horizon list: none when the guard [origin + h >= n] holds. *)
Definition origin_samples (y : list Qc) (p origin h : Z) : list Entry :=
  if decide (py_len y ≤ origin + h) then []
  else match sample_at y p origin h with
       | Ok e => [e]
       | Raise _ => []
       end.

(** How often [h] occurs in the horizon list. *)
Definition multiplicity (h : Z) (hs : list Z) : nat :=
  length (filter (λ h', h' = h) hs).

(** What the two loops append to [results[h]], in order. *)
Definition recorded (y : list Qc) (p : Z) (hs os : list Z) (h : Z)
  : list Entry :=
  (os ≫= λ o, origin_samples y p o h) ≫= replicate (multiplicity h hs).

Definition append_samples (acc : Samples) (es : list Entry) : Samples :=
  foldl append_sample acc es.

(** [y_pred] of the static protocol, from the series alone. *)
Definition static_y_pred (y : list Qc) (train_frac : Qc) (p : Z) : res Qc :=
  fitted ← fit_model (static_y_train y train_frac) p;
  static_forecast y (static_split_idx y train_frac) p fitted.

(** ** The driver *)

(** A float cell of the results table of [main]: a number, an infinity or
    [nan].  Zero is unsigned: the zeros the protocols produce are [+0.0]. *)
Inductive cell : Type :=
  | Num (q : Qc)
  | PosInf
  | NegInf
  | NaN.

(** Element-wise float division of pandas: no exception, [x / 0] is an
    infinity of the sign of [x], and [0 / 0] is [nan]. *)
Definition cell_div (a b : cell) : cell :=
  match a, b with
  | NaN, _ | _, NaN => NaN
  | Num x, Num y =>
      if decide (y = 0%Qc)
      then if decide (x = 0%Qc) then NaN
           else if decide (0 < x)%Qc then PosInf else NegInf
      else Num (x / y)%Qc
  | Num _, _ => Num 0%Qc
  | PosInf, Num y => if decide (y < 0)%Qc then NegInf else PosInf
  | NegInf, Num y => if decide (y < 0)%Qc then PosInf else NegInf
  | _, _ => NaN
  end.

(** [a - c] and [a * c] for a number [c]. *)
Definition cell_sub_num (a : cell) (c : Qc) : cell :=
  match a with
  | Num x => Num (x - c)%Qc
  | _ => a
  end.

Definition cell_mul_num (a : cell) (c : Qc) : cell :=
  match a with
  | Num x => Num (x * c)%Qc
  | NaN => NaN
  | PosInf =>
      if decide (c = 0%Qc) then NaN
      else if decide (0 < c)%Qc then PosInf else NegInf
  | NegInf =>
      if decide (c = 0%Qc) then NaN
      else if decide (0 < c)%Qc then NegInf else PosInf
  end.

(** [results.get(h, {}).get(field, np.nan)]. *)
Definition get_cell (field : Entry → Qc) (results : gmap Z Entry) (h : Z)
  : cell :=
  match results !! h with
  | Some e => Num (field e)
  | None => NaN
  end.

(** [(static_skill / rolling_skill - 1) * 100]. *)
Definition inflation_of (static_skill rolling_skill : cell) : cell :=
  cell_mul_num (cell_sub_num (cell_div static_skill rolling_skill) 1)
    (Qc_of_Z 100).

Record Row : Type := mkRow {
  horizon_h : Z;
  static_skill : cell;
  rolling_skill : cell;
  static_rmse : cell;
  rolling_rmse : cell;
  inflation : cell
}.

(** The data frame [df_results] of [main], one row per horizon. *)
Definition main_table (horizons : list Z)
    (static_results rolling_results : gmap Z Entry) : list Row :=
  (λ h, mkRow h
          (get_cell skill static_results h) (get_cell skill rolling_results h)
          (get_cell rmse static_results h) (get_cell rmse rolling_results h)
          (inflation_of (get_cell skill static_results h)
                        (get_cell skill rolling_results h)))
  <$> horizons.

(** The default arguments of the two protocols. *)
Definition default_horizons : list Z := [1; 6; 12; 24; 48; 72].
Definition default_train_frac : Qc := Q2Qc (3 # 4).
Definition default_p : Z := 24.
Definition default_W_min : Z := 365 * 24.
Definition default_step : Z := 7 * 24.

(** The computations of [main] on the generated series [y]: both protocols
    with their default arguments, the two H* at threshold 0, the table.
    Printing, the CSV file and the figure are left out. *)
Definition main (y : list Qc) : res (Z * Z * list Row) :=
  let horizons := [1; 6; 12; 24; 48; 72] in
  static_results ←
    static_leaky_protocol y default_train_frac horizons default_p;
  rolling_results ←
    rolling_origin_causal_protocol y horizons default_W_min default_step
      default_p;
  hstar_static ← compute_hstar static_results 0%Qc;
  hstar_rolling ← compute_hstar rolling_results 0%Qc;
  Ok (hstar_static, hstar_rolling,
      main_table horizons static_results rolling_results).

(** ** The screening pipeline *)

(** The second program of the repository, [src/screening/run_screening.py].

    A text is a Python [str] whose code points are below 256, that is a list
    of [ascii] characters read as Latin-1; texts with other code points are
    outside the model.  The patterns of the program use literals, the
    classes [\d] and [\s], sets, alternation and the postfix [?] and [+]:
    on such patterns [re.search] finds a match exactly when some substring
    of the text belongs to the language of the pattern. *)

Definition chars (s : string) : list ascii := String.list_ascii_of_string s.

Definition code (a : ascii) : Z := Z.of_N (N_of_ascii a).

Definition in_range (lo hi : Z) (a : ascii) : bool :=
  bool_decide (lo ≤ code a ≤ hi).

(** [str.lower] on one character: the letters A-Z and the upper-case
    letters of Latin-1 (U+00C0-U+00D6, U+00D8-U+00DE) move up by 32. *)
Definition lower_char (a : ascii) : ascii :=
  if in_range 65 90 a || in_range 192 214 a || in_range 216 222 a
  then ascii_of_N (Z.to_N (code a + 32))
  else a.

(** [text.lower()]. *)
Definition lower (text : list ascii) : list ascii := lower_char <$> text.

(** *** Regular expressions *)

Inductive regex : Type :=
  | Void
  | Eps
  | Chr (c : ascii → bool)
  | Cat (r1 r2 : regex)
  | Alt (r1 r2 : regex)
  | Star (r : regex).

(** The language of a pattern. *)
Inductive matches : regex → list ascii → Prop :=
  | matches_eps : matches Eps []
  | matches_chr c a : c a = true → matches (Chr c) [a]
  | matches_cat r1 r2 s1 s2 :
      matches r1 s1 → matches r2 s2 → matches (Cat r1 r2) (s1 ++ s2)
  | matches_alt_l r1 r2 s : matches r1 s → matches (Alt r1 r2) s
  | matches_alt_r r1 r2 s : matches r2 s → matches (Alt r1 r2) s
  | matches_star_nil r : matches (Star r) []
  | matches_star_app r s1 s2 :
      matches r s1 → matches (Star r) s2 → matches (Star r) (s1 ++ s2).

Fixpoint nullable (r : regex) : bool :=
  match r with
  | Void | Chr _ => false
  | Eps | Star _ => true
  | Cat r1 r2 => nullable r1 && nullable r2
  | Alt r1 r2 => nullable r1 || nullable r2
  end.

(** The derivative of a pattern by a character. *)
Fixpoint deriv (a : ascii) (r : regex) : regex :=
  match r with
  | Void | Eps => Void
  | Chr c => if c a then Eps else Void
  | Cat r1 r2 =>
      if nullable r1 then Alt (Cat (deriv a r1) r2) (deriv a r2)
      else Cat (deriv a r1) r2
  | Alt r1 r2 => Alt (deriv a r1) (deriv a r2)
  | Star r1 => Cat (deriv a r1) (Star r1)
  end.

(** Some prefix of [s] belongs to the language of [r]. *)
Fixpoint match_prefix (r : regex) (s : list ascii) : bool :=
  nullable r ||
  match s with
  | [] => false
  | a :: s' => match_prefix (deriv a r) s'
  end.

(** The truth value of [re.search(r, s)]: a match starts at some position
    of [s]. *)
Fixpoint re_search (r : regex) (s : list ascii) : bool :=
  match_prefix r s ||
  match s with
  | [] => false
  | _ :: s' => re_search r s'
  end.

(** [\d] on code points below 256: the digits 0-9. *)
Definition is_digit (a : ascii) : bool := in_range 48 57 a.

(** [\s] on code points below 256: tab to carriage return, the four
    separators U+001C-U+001F, the space, U+0085 and U+00A0. *)
Definition is_space (a : ascii) : bool :=
  in_range 9 13 a || in_range 28 32 a
  || bool_decide (code a = 133) || bool_decide (code a = 160).

(** A literal character of a pattern compiled with [re.IGNORECASE]. *)
Definition is_char (c : ascii) (a : ascii) : bool :=
  bool_decide (lower_char a = lower_char c).

Definition Lit (s : string) : regex :=
  foldr (λ c r, Cat (Chr (is_char c)) r) Eps (chars s).
Definition Opt (r : regex) : regex := Alt r Eps.
Definition Plus (r : regex) : regex := Cat r (Star r).
Definition Seq (rs : list regex) : regex := foldr Cat Eps rs.

(** [[\d]], [\s] and [[-\s]]. *)
Definition digit : regex := Chr is_digit.
Definition space : regex := Chr is_space.
Definition sep : regex := Chr (λ a, is_char "-" a || is_space a).

(** [multi[-\s]?step], [[\d]+[-\s]?(hour|day|step)[-\s]?ahead],
    [extended[-\s]?horizon] and [[\d]+h\s+forecasting]. *)
Definition TASK_PATTERNS : list regex := [
  Seq [Lit "multi"; Opt sep; Lit "step"];
  Seq [Plus digit; Opt sep; Alt (Lit "hour") (Alt (Lit "day") (Lit "step"));
       Opt sep; Lit "ahead"];
  Seq [Lit "extended"; Opt sep; Lit "horizon"];
  Seq [Plus digit; Lit "h"; Plus space; Lit "forecasting"]
].

(** [rolling[-\s]?origin], [walk[-\s]?forward], [expanding[-\s]?window],
    [time[-\s]?series[-\s]?cross[-\s]?validation] and
    [sequential[-\s]?retraining]. *)
Definition VALIDATION_PATTERNS : list regex := [
  Seq [Lit "rolling"; Opt sep; Lit "origin"];
  Seq [Lit "walk"; Opt sep; Lit "forward"];
  Seq [Lit "expanding"; Opt sep; Lit "window"];
  Seq [Lit "time"; Opt sep; Lit "series"; Opt sep; Lit "cross"; Opt sep;
       Lit "validation"];
  Seq [Lit "sequential"; Opt sep; Lit "retraining"]
].

(** *** classify_abstract *)

Definition classify_abstract (text : list ascii) : bool * bool :=
  let text_lower := lower text in
  let has_task :=
    existsb (λ pattern, re_search pattern text_lower) TASK_PATTERNS in
  let has_validation :=
    existsb (λ pattern, re_search pattern text_lower) VALIDATION_PATTERNS in
  (has_task, has_validation).

(** *** wilson_ci *)

(** [stats.norm.ppf] of scipy is not part of the repository. *)
Variable norm_ppf : Qc → Qc.

(** The argument of [np.sqrt] in [wilson_ci]. *)
Definition wilson_radicand (p : Qc) (n : Z) (z : Qc) : Qc :=
  (p * (1 - p) / Qc_of_Z n + z ^ 2 / (Qc_of_Z 4 * Qc_of_Z n ^ 2))%Qc.

(** [None] stands for the runs that produce no finite pair: a division by
    zero or the square root of a negative number, where numpy yields [inf]
    or [nan] and a Python float [p] raises [ZeroDivisionError]. *)
Definition wilson_ci (p : Qc) (n : Z) (alpha : Qc) : option (Qc * Qc) :=
  let z := norm_ppf (1 - alpha / Qc_of_Z 2)%Qc in
  if decide (n = 0) then None else
  let denominator := (1 + z ^ 2 / Qc_of_Z n)%Qc in
  if decide (denominator = 0%Qc) then None else
  let centre := ((p + z ^ 2 / (Qc_of_Z 2 * Qc_of_Z n)) / denominator)%Qc in
  if decide (wilson_radicand p n z < 0)%Qc then None else
  let spread := (z * np_sqrt (wilson_radicand p n z) / denominator)%Qc in
  Some (centre - spread, centre + spread)%Qc.

(** The default [alpha=0.05]. *)
Definition default_alpha : Qc := Q2Qc (5 # 100).

(** *** load_corpus *)

(** [column.loc[idx] = v] on a column with the default index. *)
Definition loc_assign {A : Type} (idx : list nat) (v : A) (column : list A)
  : list A :=
  foldr (λ i col, <[i := v]> col) column idx.

(** [draw] is a possible value of
    [np.random.choice(population, size, replace=False)], for a population
    without repeats: [size] distinct members of it. *)
Definition np_random_choice (population : list nat) (size : Z)
    (draw : list nat) : Prop :=
  draw ⊆ population ∧ NoDup draw ∧ py_len draw = size.

(** [n], [n_multistep = int(n * 0.022)] and
    [n_validation = int(n * 0.0008)] of [load_corpus]. *)
Definition corpus_n : Z := 2425.
Definition corpus_n_multistep : Z :=
  py_int (Qc_of_Z corpus_n * Q2Qc (22 # 1000))%Qc.
Definition corpus_n_validation : Z :=
  py_int (Qc_of_Z corpus_n * Q2Qc (8 # 10000))%Qc.

(** The column [abstract] of the corpus, the only one the classification
    reads.  The two random draws are arguments. *)
Definition load_corpus (multistep_idx validation_idx : list nat)
  : list (list ascii) :=
  let abstract := replicate (Z.to_nat corpus_n) [] in
  let abstract :=
    loc_assign multistep_idx
      (chars "multi-step forecasting PM10 24-hour ahead") abstract in
  loc_assign validation_idx
    (chars "walk-forward validation PM10 forecasting") abstract.

(** *** The driver of the screening *)

(** [column.sum()] on a Boolean column. *)
Definition bool_sum (column : list bool) : Z :=
  foldr (λ b s, Z.b2z b + s) 0 column.

Record Summary : Type := mkSummary {
  n_total : Z;
  n_task : Z;
  n_validation : Z;
  p_task : Qc;
  p_validation : Qc;
  ci_task : Qc * Qc;
  ci_validation : Qc * Qc
}.

(** The computations of [main] of [run_screening.py]; printing and the two
    output files are left out.  [None] as in [wilson_ci], and for the
    division by an empty corpus. *)
Definition screening_main (multistep_idx validation_idx : list nat)
  : option Summary :=
  let corpus := load_corpus multistep_idx validation_idx in
  let results := classify_abstract <$> corpus in
  let task_declared := fst <$> results in
  let validation_mentioned := snd <$> results in
  let n_total := py_len corpus in
  let n_task := bool_sum task_declared in
  let n_validation := bool_sum validation_mentioned in
  if decide (n_total = 0) then None else
  let p_task := (Qc_of_Z n_task / Qc_of_Z n_total)%Qc in
  let p_validation := (Qc_of_Z n_validation / Qc_of_Z n_total)%Qc in
  ci_task ← wilson_ci p_task n_total default_alpha;
  ci_validation ← wilson_ci p_validation n_total default_alpha;
  Some (mkSummary n_total n_task n_validation p_task p_validation
          ci_task ci_validation).

(** The abstract at position [i] of the corpus. *)
Definition abstract_of (multistep_idx validation_idx : list nat) (i : nat)
  : list ascii :=
  if decide (i ∈ validation_idx)
  then chars "walk-forward validation PM10 forecasting"
  else if decide (i ∈ multistep_idx)
       then chars "multi-step forecasting PM10 24-hour ahead"
       else [].

(** * Properties *)

(** ** Generic facts on the error monad and on Python primitives *)

Lemma bind_Ok {A B : Type} (m : res A) (f : A → res B) (b : B) :
  m ≫= f = Ok b ↔ ∃ a, m = Ok a ∧ f a = Ok b.
Proof.
  destruct m as [a|e]; simpl; split.
  - intros H. by exists a.
  - by intros (a' & [= ->] & H).
  - done.
  - by intros (a' & [=] & _).
Qed.

Lemma py_len_nonneg {A : Type} (l : list A) : 0 ≤ py_len l.
Proof. unfold py_len. lia. Qed.

(** ** compute_hstar *)

Lemma StronglySorted_reverse_flip {A : Type} (R : relation A) (l : list A) :
  StronglySorted R l → StronglySorted (flip R) (reverse l).
Proof.
  induction 1 as [|x l Hl IH Hx]; [constructor|].
  rewrite reverse_cons. apply StronglySorted_app_2; [|done|].
  - intros y z Hy ->%list_elem_of_singleton.
    rewrite elem_of_reverse in Hy.
    rewrite Forall_forall in Hx. by apply Hx.
  - repeat constructor.
Qed.

(** The scan over keys in descending order stops at the largest key that
    exceeds the threshold, and falls through to 0 when there is none. *)
Lemma hstar_scan_spec (results : gmap Z Entry) (threshold : Qc) (hs : list Z) :
  StronglySorted (flip Z.le) hs →
  (∀ h, h ∈ hs → is_Some (results !! h)) →
  ∃ hstar, hstar_scan results threshold hs = Ok hstar ∧
    ((hstar ∈ hs ∧ exceeds results threshold hstar ∧
      ∀ h, h ∈ hs → exceeds results threshold h → h ≤ hstar)
     ∨ (hstar = 0 ∧ ∀ h, h ∈ hs → ¬ exceeds results threshold h)).
Proof.
  induction 1 as [|x l Hl IH Hx]; intros Hkeys; simpl.
  - exists 0. split; [done|]. right. split; [done|]. by intros h ?%elem_of_nil.
  - destruct (Hkeys x) as [e He]; [left|]. rewrite He.
    destruct (decide (threshold < skill e)%Qc) as [Hlt|Hnlt].
    + exists x. split; [done|]. left. split; [left|]. split; [by exists e|].
      intros h [->|Hh]%elem_of_cons _; [lia|].
      rewrite Forall_forall in Hx. by apply Hx.
    + destruct IH as (hstar & Hscan & Hcase).
      { intros h Hh. apply Hkeys. by right. }
      exists hstar. split; [done|].
      destruct Hcase as [(Hin & Hex & Hmax)|(-> & Hnone)]; [left|right].
      * split; [by right|]. split; [done|].
        intros h [->|Hh]%elem_of_cons Hexh; [|by apply Hmax].
        destruct Hexh as (e' & He' & Hlt). congruence.
      * split; [done|]. intros h [->|Hh]%elem_of_cons; [|by apply Hnone].
        intros (e' & He' & Hlt). congruence.
Qed.

Lemma sorted_keys_elem (results : gmap Z Entry) (h : Z) :
  h ∈ reverse (merge_sort Z.le (elements (dom results))) ↔
  is_Some (results !! h).
Proof.
  rewrite elem_of_reverse, merge_sort_Permutation, elem_of_elements.
  apply elem_of_dom.
Qed.

Lemma sorted_keys_desc (results : gmap Z Entry) :
  StronglySorted (flip Z.le)
    (reverse (merge_sort Z.le (elements (dom results)))).
Proof.
  apply StronglySorted_reverse_flip, StronglySorted_merge_sort.
  - intros x y z. apply Z.le_trans.
  - intros x y. lia.
Qed.

Lemma compute_hstar_cases (results : gmap Z Entry) (threshold : Qc) :
  ∃ hstar, compute_hstar results threshold = Ok hstar ∧
    ((exceeds results threshold hstar ∧
      ∀ h, exceeds results threshold h → h ≤ hstar)
     ∨ (hstar = 0 ∧ ∀ h, ¬ exceeds results threshold h)).
Proof.
  destruct (hstar_scan_spec results threshold _ (sorted_keys_desc results))
    as (hstar & Hscan & Hcase).
  { intros h. apply sorted_keys_elem. }
  exists hstar. split; [done|].
  destruct Hcase as [(Hin & Hex & Hmax)|(-> & Hnone)]; [left|right].
  - split; [done|]. intros h Hexh. apply Hmax; [|done].
    apply sorted_keys_elem. destruct Hexh as (e & -> & _). by eexists.
  - split; [done|]. intros h Hexh. apply (Hnone h); [|done].
    apply sorted_keys_elem. destruct Hexh as (e & -> & _). by eexists.
Qed.

(** C3. For every record and threshold [compute_hstar] returns (without
    raising) the largest horizon of the record whose skill is strictly above
    the threshold; it returns 0 when no horizon of the record is, and in
    particular on the empty record. *)
Theorem compute_hstar_largest (results : gmap Z Entry) (threshold : Qc) :
  (∃ hstar, compute_hstar results threshold = Ok hstar ∧
     ((exceeds results threshold hstar ∧
       ∀ h, exceeds results threshold h → h ≤ hstar)
      ∨ (hstar = 0 ∧ ∀ h, ¬ exceeds results threshold h)))
  ∧ ((∀ h, ¬ exceeds results threshold h) →
     compute_hstar results threshold = Ok 0)
  ∧ compute_hstar ∅ threshold = Ok 0.
Proof.
  split; [apply compute_hstar_cases|]. split; [|done].
  intros Hnone.
  destruct (compute_hstar_cases results threshold)
    as (hstar & Hres & [(Hex & _)|(-> & _)]); [|done].
  by destruct (Hnone hstar).
Qed.

(** C8. On a record whose keys are horizons (non-negative integers),
    raising the threshold never increases H*: for [t1 <= t2] the value at
    [t2] is at most the value at [t1]. *)
Theorem compute_hstar_antitone (results : gmap Z Entry) (t1 t2 : Qc) :
  (∀ h, is_Some (results !! h) → 0 ≤ h) →
  (t1 <= t2)%Qc →
  ∃ h1 h2, compute_hstar results t1 = Ok h1 ∧
           compute_hstar results t2 = Ok h2 ∧ h2 ≤ h1.
Proof.
  intros Hkeys Hle.
  destruct (compute_hstar_cases results t1) as (h1 & Hr1 & Hc1).
  destruct (compute_hstar_cases results t2) as (h2 & Hr2 & Hc2).
  exists h1, h2. split; [done|]. split; [done|].
  destruct Hc2 as [(Hex2 & _)|(-> & _)].
  - assert (exceeds results t1 h2) as Hex1.
    { destruct Hex2 as (e & He & Hlt). exists e. split; [done|].
      by eapply Qcle_lt_trans. }
    destruct Hc1 as [(_ & Hmax)|(_ & Hnone)]; [by apply Hmax|].
    by destruct (Hnone h2).
  - destruct Hc1 as [(Hex1 & _)|(-> & _)]; [|done].
    destruct Hex1 as (e & He & _). apply Hkeys. by eexists.
Qed.

(** ** The skill score *)

Lemma Qc_square_nonneg (x : Qc) : (0 <= x ^ 2)%Qc.
Proof.
  replace (x ^ 2)%Qc with (x * x)%Qc by (simpl; ring).
  destruct (Qclt_le_dec x 0) as [Hneg|Hpos].
  - replace (x * x)%Qc with ((- x) * (- x))%Qc by ring.
    assert (0 <= - x)%Qc as Hx.
    { apply Qclt_le_weak, Qcopp_le_compat in Hneg.
      by replace (- 0)%Qc with 0%Qc in Hneg by ring. }
    by apply Qcmult_nonneg_nonneg.
  - by apply Qcmult_nonneg_nonneg.
Qed.

(** The conditional expression never divides by zero. *)
Lemma skill_score_total (err_model err_persist : Qc) :
  skill_score err_model err_persist =
  Ok (if decide (0 < err_persist)%Qc
      then (1 - err_model / err_persist)%Qc else 0%Qc).
Proof.
  unfold skill_score, py_div.
  destruct (decide (0 < err_persist)%Qc) as [Hpos|Hnpos]; [|done].
  destruct (decide (err_persist = 0%Qc)) as [->|Hne]; [|done].
  by apply Qclt_not_le in Hpos.
Qed.

Lemma score_total (y_pred y_true y_persist : Qc) :
  score y_pred y_true y_persist =
  Ok (mkEntry (np_sqrt ((y_pred - y_true) ^ 2)%Qc)
        (if decide (0 < (y_persist - y_true) ^ 2)%Qc
         then (1 - (y_pred - y_true) ^ 2 / (y_persist - y_true) ^ 2)%Qc
         else 0%Qc)).
Proof. unfold score. by rewrite skill_score_total. Qed.

(** ** range, max and the dictionaries of the rolling protocol *)

Lemma py_range_empty (start stop step : Z) :
  0 < step → stop ≤ start → py_range start stop step = Ok [].
Proof.
  intros Hstep Hle. unfold py_range.
  rewrite decide_False by lia. rewrite decide_True by done.
  assert ((stop - start + step - 1) `div` step < 1) as Hlen
    by (apply Z.div_lt_upper_bound; lia).
  by replace (Z.to_nat _) with 0%nat by lia.
Qed.

Lemma py_range_elem (start stop step : Z) (os : list Z) (o : Z) :
  0 < step → py_range start stop step = Ok os → o ∈ os →
  start ≤ o < stop.
Proof.
  intros Hstep. unfold py_range.
  rewrite decide_False by lia. rewrite decide_True by done.
  intros [= <-] (i & -> & Hi%elem_of_seq)%list_elem_of_fmap.
  pose proof (Z.mul_div_le (stop - start + step - 1) step Hstep).
  nia.
Qed.

Lemma py_range_nonempty (start stop step : Z) :
  0 < step → start < stop →
  ∃ os, py_range start stop step = Ok (start :: os).
Proof.
  intros Hstep Hlt. unfold py_range.
  rewrite decide_False by lia. rewrite decide_True by done.
  assert (1 ≤ (stop - start + step - 1) `div` step) as Hlen
    by (apply Z.div_le_lower_bound; lia).
  destruct (Z.to_nat _) as [|len] eqn:Hn; [lia|].
  eexists. simpl. do 2 f_equal. lia.
Qed.

Lemma foldl_max_le (xs : list Z) (x h : Z) :
  h = x ∨ h ∈ xs → h ≤ foldl Z.max x xs.
Proof.
  revert x h. induction xs as [|z xs IH]; intros x h; simpl.
  - intros [->|?%elem_of_nil]; [lia|done].
  - intros [->|[->|Hin]%elem_of_cons].
    + trans (Z.max x z); [lia|]. apply IH. by left.
    + trans (Z.max x z); [lia|]. apply IH. by left.
    + apply IH. by right.
Qed.

(** [max(horizons)] bounds every horizon. *)
Lemma py_max_bound (hs : list Z) (m h : Z) :
  py_max hs = Ok m → h ∈ hs → h ≤ m.
Proof.
  destruct hs as [|x xs]; [done|]. intros [= <-] Hin.
  apply foldl_max_le. by apply elem_of_cons.
Qed.

Lemma init_results_from (hs : list Z) (d : gmap Z Samples) (h : Z) :
  foldl (λ d h, <[h := ([], [])]> d) d hs !! h =
  if decide (h ∈ hs) then Some ([], []) else d !! h.
Proof.
  revert d. induction hs as [|x hs IH]; intros d.
  - rewrite decide_False; [done|]. apply not_elem_of_nil.
  - simpl foldl. rewrite IH. destruct (decide (h ∈ hs)) as [Hin|Hnin].
    + rewrite decide_True; [done|]. by right.
    + destruct (decide (h = x)) as [->|Hne].
      * rewrite lookup_insert_eq. rewrite decide_True; [done|]. by left.
      * rewrite lookup_insert_ne by done. rewrite decide_False; [done|].
        by intros [?|?]%elem_of_cons.
Qed.

Lemma init_results_lookup (hs : list Z) (h : Z) :
  init_results hs !! h = if decide (h ∈ hs) then Some ([], []) else None.
Proof. unfold init_results. by rewrite init_results_from, lookup_empty. Qed.

Lemma aggregate_body_Ok (results : gmap Z Samples) (h : Z)
    (summary : gmap Z Entry) :
  is_Some (results !! h) →
  aggregate_body results h summary =
  Ok (match aggregated results h with
      | Some e => <[h := e]> summary
      | None => summary
      end).
Proof.
  intros [acc Hacc]. unfold aggregate_body, aggregated, dict_get.
  rewrite !Hacc. simpl. by destruct (decide (0 < py_len acc.1)).
Qed.

Lemma aggregate_from (hs : list Z) (results : gmap Z Samples)
    (s0 : gmap Z Entry) :
  (∀ h, h ∈ hs → is_Some (results !! h)) →
  ∃ s, for_each hs (aggregate_body results) s0 = Ok s ∧
    ∀ h, s !! h =
      if decide (h ∈ hs)
      then match aggregated results h with
           | Some e => Some e
           | None => s0 !! h
           end
      else s0 !! h.
Proof.
  revert s0. induction hs as [|x hs IH]; intros s0 Hkeys.
  - exists s0. split; [done|]. intros h.
    rewrite decide_False; [done|]. apply not_elem_of_nil.
  - simpl for_each. rewrite aggregate_body_Ok by (apply Hkeys; left).
    edestruct IH as (s & Hs & Hlook);
      [intros h Hh; apply Hkeys; by right|].
    exists s. split; [exact Hs|]. intros h. rewrite Hlook.
    destruct (decide (h = x)) as [->|Hne].
    + rewrite (decide_True (P := x ∈ x :: hs)) by left.
      destruct (aggregated results x) as [e|].
      * rewrite lookup_insert_eq. by destruct (decide (x ∈ hs)).
      * by destruct (decide (x ∈ hs)).
    + assert (h ∈ x :: hs ↔ h ∈ hs) as Hiff.
      { rewrite elem_of_cons. split; [by intros [?|?]|by right]. }
      rewrite (decide_ext _ _ _ _ Hiff).
      destruct (aggregated results x); [|done].
      by rewrite lookup_insert_ne.
Qed.

(** The aggregation returns, and keeps exactly the horizons with at least
    one sample. *)
Lemma aggregate_spec (hs : list Z) (results : gmap Z Samples) :
  (∀ h, h ∈ hs → is_Some (results !! h)) →
  ∃ summary, aggregate hs results = Ok summary ∧
    ∀ h, summary !! h =
      if decide (h ∈ hs) then aggregated results h else None.
Proof.
  intros Hkeys.
  destruct (aggregate_from hs results ∅ Hkeys) as (s & Hs & Hlook).
  exists s. split; [done|]. intros h. rewrite Hlook, lookup_empty.
  destruct (decide (h ∈ hs)); [|done]. by destruct (aggregated results h).
Qed.

(** C5. When [W_min >= n - max(horizons)] (for a positive step) the origin
    sequence is empty, the rolling protocol returns the empty mapping without
    raising, and [compute_hstar] of that result is 0. *)
Theorem rolling_empty_result (y : list Qc) (horizons : list Z)
    (W_min step p m : Z) (threshold : Qc) :
  py_max horizons = Ok m →
  0 < step →
  py_len y - m ≤ W_min →
  rolling_origins (py_len y) horizons W_min step = Ok []
  ∧ rolling_origin_causal_protocol y horizons W_min step p = Ok ∅
  ∧ compute_hstar ∅ threshold = Ok 0.
Proof.
  intros Hmax Hstep Hwarm.
  assert (rolling_origins (py_len y) horizons W_min step = Ok []) as Horig.
  { unfold rolling_origins. rewrite Hmax. simpl. by apply py_range_empty. }
  split; [done|]. split; [|done].
  unfold rolling_origin_causal_protocol. rewrite Horig. simpl.
  destruct (aggregate_spec horizons (init_results horizons))
    as (summary & -> & Hlook).
  { intros h Hh. rewrite init_results_lookup, decide_True by done. by eexists. }
  f_equal. apply map_eq. intros h. rewrite Hlook, lookup_empty.
  destruct (decide (h ∈ horizons)); [|done].
  unfold aggregated. rewrite init_results_lookup, decide_True by done.
  by rewrite decide_False by (simpl; unfold py_len; simpl; lia).
Qed.

(** ** Slices and the trailing mean *)

Lemma py_slice_prefix {A : Type} (l : list A) (k : Z) :
  0 ≤ k → py_slice l None (Some k) = take (Z.to_nat k) l.
Proof.
  intros Hk. unfold py_slice, slice_bound, py_len. simpl.
  rewrite decide_False by lia. rewrite drop_0.
  destruct (decide (k ≤ Z.of_nat (length l))) as [Hle|Hgt].
  - f_equal. lia.
  - rewrite !take_ge; [done|lia..].
Qed.

Lemma py_slice_suffix {A : Type} (l : list A) (k : Z) :
  0 ≤ k → py_slice l (Some k) None = drop (Z.to_nat k) l.
Proof.
  intros Hk. unfold py_slice, slice_bound, py_len. simpl.
  rewrite decide_False by lia.
  destruct (decide (k ≤ Z.of_nat (length l))) as [Hle|Hgt].
  - rewrite Z.min_l by done. apply take_ge. rewrite length_drop. lia.
  - rewrite Z.min_r by lia. rewrite Z.sub_diag. simpl.
    symmetry. apply drop_ge. lia.
Qed.

Lemma length_rolling_mean (w : nat) (ys : list Qc) :
  length (rolling_mean w ys) = length ys.
Proof. apply length_imap. Qed.

(** The trailing mean commutes with truncation: position [i] of the smoothed
    series is computed from positions [<= i] of the input. *)
Lemma rolling_mean_take (w k : nat) (ys : list Qc) :
  rolling_mean w (take k ys) = take k (rolling_mean w ys).
Proof.
  apply list_eq. intros i. unfold rolling_mean.
  rewrite lookup_take, !list_lookup_imap, lookup_take.
  destruct (decide (i < k)%nat) as [Hlt|Hge]; [|done].
  rewrite take_take. by replace (S i `min` k)%nat with (S i) by lia.
Qed.

Lemma take_agree {A : Type} (l1 l2 : list A) (k : nat) :
  (∀ i : nat, (i < k)%nat → l1 !! i = l2 !! i) → take k l1 = take k l2.
Proof.
  intros Hagree. apply list_eq. intros i. rewrite !lookup_take.
  destruct (decide (i < k)%nat); [by apply Hagree|done].
Qed.

(** ** Causality of the rolling protocol, and the static training signal *)

Lemma rolling_y_train_prefix (y : list Qc) (origin : Z) :
  0 ≤ origin →
  rolling_y_train y origin = rolling_mean 24 (take (Z.to_nat origin) y).
Proof. intros Ho. unfold rolling_y_train. by rewrite py_slice_prefix. Qed.

(** A sample of the rolling protocol depends on the series through
    [y_pred], the true value and the persistence value only. *)
Lemma sample_at_y_pred (y : list Qc) (p o h : Z) (e : Entry) :
  sample_at y p o h = Ok e →
  ∃ y_pred y_true y_persist,
    rolling_y_pred y o p = Ok y_pred
    ∧ py_index y (o + h - 1) = Ok y_true
    ∧ py_index y (o - 1) = Ok y_persist
    ∧ score y_pred y_true y_persist = Ok e.
Proof.
  unfold sample_at, rolling_y_pred, rolling_sample.
  intros (fitted & Hfit & (y_pred & Hpred & (y_true & Htrue &
    (y_persist & Hpers & He)%bind_Ok)%bind_Ok)%bind_Ok)%bind_Ok.
  exists y_pred, y_true, y_persist. by rewrite Hfit.
Qed.

(** C1. At an origin [o] (an index, so [0 <= o]) the smoothed training
    signal, the fitted scaler and model, and the prediction [y_pred] of the
    rolling protocol are the same for two series that agree on all indices
    below [o]: no value at an index [>= o] enters the forecast. *)
Theorem rolling_forecast_causal (y1 y2 : list Qc) (origin p : Z) :
  0 ≤ origin →
  (∀ i : nat, Z.of_nat i < origin → y1 !! i = y2 !! i) →
  rolling_y_train y1 origin = rolling_y_train y2 origin
  ∧ fit_model (rolling_y_train y1 origin) p
    = fit_model (rolling_y_train y2 origin) p
  ∧ (∀ fitted, rolling_forecast y1 origin p fitted
               = rolling_forecast y2 origin p fitted)
  ∧ rolling_y_pred y1 origin p = rolling_y_pred y2 origin p.
Proof.
  intros Ho Hagree.
  assert (rolling_y_train y1 origin = rolling_y_train y2 origin) as Htrain.
  { rewrite !rolling_y_train_prefix by done. f_equal.
    apply take_agree. intros i Hi. apply Hagree. lia. }
  unfold rolling_y_pred, rolling_forecast. by rewrite Htrain.
Qed.

(** The smoothed training signal of the static protocol is the trailing
    mean of the training prefix alone: it is the same for two series of equal
    length that agree below the split index. *)
Lemma static_y_train_agree (y1 y2 : list Qc) (train_frac : Qc) :
  length y1 = length y2 →
  0 ≤ static_split_idx y1 train_frac →
  (∀ i : nat, Z.of_nat i < static_split_idx y1 train_frac →
     y1 !! i = y2 !! i) →
  static_y_train y1 train_frac = static_y_train y2 train_frac
  ∧ static_y_train y1 train_frac
    = rolling_y_train y1 (static_split_idx y1 train_frac).
Proof.
  intros Hlen Hk Hagree.
  assert (static_split_idx y2 train_frac = static_split_idx y1 train_frac)
    as Hidx by (unfold static_split_idx, py_len; by rewrite Hlen).
  assert (∀ y, 0 ≤ static_split_idx y train_frac →
    static_y_train y train_frac =
    rolling_mean 24 (take (Z.to_nat (static_split_idx y train_frac)) y))
    as Hcausal.
  { intros y Hy. unfold static_y_train.
    by rewrite py_slice_prefix, rolling_mean_take. }
  split; [|by rewrite Hcausal, rolling_y_train_prefix].
  rewrite !Hcausal by (by rewrite ?Hidx). rewrite Hidx. f_equal.
  apply take_agree. intros i Hi. apply Hagree. lia.
Qed.

(** C2 (as the code behaves). In the static protocol, overwriting the value
    at any index [i >= split_idx], inside the test region, changes neither
    the smoothed training signal [y_rolled.iloc[:split_idx]] nor the scaler
    and model fitted on it: that signal is the causal one, the trailing mean
    of the training prefix.  No perturbation of the kind the claim asks for
    exists. *)
Theorem static_train_signal_blind (y : list Qc) (train_frac : Qc) (p : Z)
    (i : nat) (v : Qc) :
  0 ≤ static_split_idx y train_frac ≤ Z.of_nat i →
  static_y_train (<[i := v]> y) train_frac = static_y_train y train_frac
  ∧ fit_model (static_y_train (<[i := v]> y) train_frac) p
    = fit_model (static_y_train y train_frac) p
  ∧ static_y_train y train_frac
    = rolling_y_train y (static_split_idx y train_frac).
Proof.
  intros [Hk Hi].
  destruct (static_y_train_agree y (<[i := v]> y) train_frac)
    as [Htrain Hcausal].
  - by rewrite length_insert.
  - done.
  - intros j Hj. rewrite list_lookup_insert_ne; [done|lia].
  - by rewrite <- Htrain.
Qed.

(** ** When fitting and forecasting succeed *)

Lemma py_index_Ok {A : Type} (l : list A) (i : Z) :
  0 ≤ i < py_len l →
  ∃ x, py_index l i = Ok x ∧ l !! Z.to_nat i = Some x.
Proof.
  intros [Hlo Hhi]. unfold py_index, py_len in *. cbv zeta.
  rewrite (decide_False (P := i < 0)) by lia.
  rewrite (decide_False (P := i < 0)) by lia.
  destruct (lookup_lt_is_Some_2 l (Z.to_nat i)) as [x Hx]; [lia|].
  exists x. by rewrite Hx.
Qed.

Lemma py_slice_window_length {A : Type} (l : list A) (lo hi : Z) :
  0 ≤ lo ≤ hi → hi ≤ py_len l →
  length (py_slice l (Some lo) (Some hi)) = Z.to_nat (hi - lo).
Proof.
  intros Hlo Hhi. unfold py_slice, slice_bound, py_len in *. simpl.
  rewrite !decide_False by lia.
  rewrite length_take, length_drop. lia.
Qed.

Lemma py_slice_tail_length {A : Type} (l : list A) (p : Z) :
  0 < p ≤ py_len l →
  length (py_slice l (Some (- p)) None) = Z.to_nat p.
Proof.
  intros Hp. unfold py_slice, slice_bound, py_len in *. simpl.
  rewrite decide_True by lia.
  rewrite length_take, length_drop. lia.
Qed.

Lemma length_np_roll (a : list Qc) (i : nat) :
  length (np_roll a i) = length a.
Proof.
  unfold np_roll. destruct (length a) as [|len] eqn:Hlen; [done|].
  rewrite length_app, length_drop, length_take, Hlen.
  pose proof (Nat.mod_upper_bound i (S len)). lia.
Qed.

(** Stacking [k >= 1] columns of length [len] gives [len] rows of length
    [k]. *)
Lemma column_stack_shape (cols : list (list Qc)) (len : nat) :
  cols ≠ [] → Forall (λ c, length c = len) cols →
  length (column_stack cols) = len
  ∧ Forall (λ row, length row = length cols) (column_stack cols).
Proof.
  induction cols as [|c cs IH]; [done|]. intros _ Hcols.
  apply Forall_cons in Hcols as [Hc Hcs].
  destruct cs as [|c' cs'].
  - simpl. rewrite length_fmap. split; [done|].
    apply Forall_fmap, Forall_true. done.
  - destruct IH as [Hlen Hrows]; [done..|].
    change (column_stack (c :: c' :: cs'))
      with (zip_with cons c (column_stack (c' :: cs'))).
    split.
    + rewrite length_zip_with. lia.
    + eapply Forall_zip_with_snd; [|exact Hrows].
      apply Forall_true. intros x row Hrow. simpl in *. by rewrite Hrow.
Qed.

Lemma scaler_transform_Ok (sc : StandardScaler) (xs : list Qc) :
  xs ≠ [] →
  ∃ zs, scaler_transform sc xs = Ok zs ∧ length zs = length xs.
Proof.
  intros Hne. destruct xs as [|x xs]; [done|].
  eexists. split; [done|]. by rewrite length_fmap.
Qed.

Lemma scaler_fit_Ok (xs : list Qc) :
  xs ≠ [] → ∃ sc, scaler_fit xs = Ok sc.
Proof. intros Hne. destruct xs as [|x xs]; [done|]. by eexists. Qed.

(** Fitting succeeds on a training signal with more than [p >= 1] points,
    and the model expects [p] features. *)
Lemma fit_model_Ok (y_train : list Qc) (p : Z) :
  1 ≤ p < py_len y_train →
  ∃ fitted, fit_model y_train p = Ok fitted
            ∧ n_features_in_ fitted.2 = Z.to_nat p.
Proof.
  intros [Hp Hlen]. unfold fit_model, py_len in *.
  assert (y_train ≠ []) as Hne by (intros ->; simpl in Hlen; lia).
  destruct (scaler_fit_Ok y_train Hne) as (sc & ->). simpl mbind.
  destruct (scaler_transform_Ok sc y_train Hne) as (zs & -> & Hzs).
  simpl mbind. unfold lagged_matrix. rewrite decide_False by lia. simpl mbind.
  rewrite py_slice_suffix by lia.
  set (cols := np_roll zs <$> seq 1 (Z.to_nat p)).
  destruct (column_stack_shape cols (length zs)) as [Hrows Hwidth].
  { unfold cols. destruct (Z.to_nat p) eqn:Hn; [lia|done]. }
  { unfold cols. apply Forall_fmap, Forall_true. intros i. simpl.
    apply length_np_roll. }
  assert (length cols = Z.to_nat p) as Hcols
    by (unfold cols; by rewrite length_fmap, length_seq).
  destruct (drop (Z.to_nat p) (column_stack cols)) as [|row rows] eqn:Hdrop.
  { apply (f_equal length) in Hdrop. rewrite length_drop in Hdrop.
    simpl in Hdrop. lia. }
  assert (length row = Z.to_nat p) as Hrow.
  { rewrite <- Hcols.
    assert (row ∈ column_stack cols) as Hin.
    { eapply (subseteq_drop (Z.to_nat p)). rewrite Hdrop. left. }
    rewrite Forall_forall in Hwidth. by apply Hwidth. }
  unfold Ridge_fit. destruct row as [|r row']; [simpl in Hrow; lia|].
  simpl mbind. eexists. split; [done|]. done.
Qed.

Lemma forecast_Ok (fitted : StandardScaler * Ridge) (window : list Qc) :
  window ≠ [] → length window = n_features_in_ fitted.2 →
  ∃ y_pred, forecast fitted window = Ok y_pred.
Proof.
  intros Hne Hlen. unfold forecast.
  destruct (scaler_transform_Ok fitted.1 window Hne) as (zs & -> & Hzs).
  simpl mbind. unfold Ridge_predict.
  rewrite decide_True by (rewrite length_reverse; congruence).
  by eexists.
Qed.

(** ** Rounding to binary64 *)

Lemma round_half_even_bounds (t : Q) :
  (inject_Z (round_half_even t) - t <= 1 # 2)%Q
  ∧ (t - inject_Z (round_half_even t) <= 1 # 2)%Q.
Proof.
  unfold round_half_even.
  pose proof (Qfloor_le t) as Hlo. pose proof (Qlt_floor t) as Hhi.
  rewrite inject_Z_plus in Hhi. change (inject_Z 1) with 1%Q in Hhi.
  destruct (t - inject_Z (Qfloor t) ?= 1 # 2)%Q eqn:Hc.
  - apply Qeq_alt in Hc. destruct (Z.even (Qfloor t));
      rewrite ?inject_Z_plus; change (inject_Z 1) with 1%Q; split; lra.
  - apply Qlt_alt in Hc. split; lra.
  - apply Qgt_alt in Hc. rewrite inject_Z_plus.
    change (inject_Z 1) with 1%Q. split; lra.
Qed.

Lemma round_half_even_Z (t : Q) (z : Z) :
  (t == inject_Z z)%Q → round_half_even t = z.
Proof.
  intros Ht. unfold round_half_even.
  assert (Qfloor t = z) as -> by (by rewrite Ht, Qfloor_Z).
  assert (Qcompare (t - inject_Z z) (1 # 2) = Lt) as ->; [|done].
  apply (proj1 (Qlt_alt _ _)). lra.
Qed.

Lemma round_half_even_nonneg (t : Q) : (0 <= t)%Q → 0 ≤ round_half_even t.
Proof.
  intros Ht. unfold round_half_even.
  assert (0 ≤ Qfloor t) as Hf.
  { change 0 with (Qfloor 0). by apply Qfloor_resp_le. }
  destruct (t - inject_Z (Qfloor t) ?= 1 # 2)%Q; [|lia..].
  destruct (Z.even (Qfloor t)); lia.
Qed.

Lemma Qlog2_le (a : Q) : (0 < a → 2 ^ Qlog2 a <= a)%Q.
Proof.
  intros Ha. unfold Qlog2. destruct a as [num den]. cbn [Qnum Qden].
  set (d := Z.log2 num - Z.log2 (Z.pos den)).
  destruct (Qle_bool (2 ^ d) (num # den)) eqn:Hb; [by apply Qle_bool_iff|].
  assert (0 < num) as Hnum by (unfold Qlt in Ha; simpl in Ha; lia).
  destruct (Z.log2_spec num Hnum) as [Hn1 _].
  destruct (Z.log2_spec (Z.pos den)) as [_ Hd2]; [done|].
  pose proof (Z.log2_nonneg num) as Hln.
  pose proof (Z.log2_nonneg (Z.pos den)) as Hld.
  replace (d - 1) with (Z.log2 num - Z.succ (Z.log2 (Z.pos den)))
    by (unfold d; lia).
  clear d Hb.
  rewrite Qpower_minus by done.
  change 2%Q with (inject_Z 2).
  rewrite <-!Zpower_Qpower by lia.
  rewrite (Qmake_Qdiv num den).
  assert (inject_Z (2 ^ Z.log2 num) <= inject_Z num)%Q as H1
    by by rewrite <-Zle_Qle.
  assert (inject_Z (Z.pos den) <= inject_Z (2 ^ Z.succ (Z.log2 (Z.pos den))))%Q
    as H2 by (rewrite <-Zle_Qle; lia).
  assert (0 < inject_Z (Z.pos den))%Q as H3 by by rewrite <-(Zlt_Qlt 0).
  assert (0 < inject_Z (2 ^ Z.log2 num))%Q as H4
    by (rewrite <-(Zlt_Qlt 0); lia).
  set (x := inject_Z num) in *. set (y := inject_Z (Z.pos den)) in *.
  set (P := inject_Z (2 ^ Z.log2 num)) in *.
  set (R := inject_Z (2 ^ Z.succ (Z.log2 (Z.pos den)))) in *.
  clearbody x y P R.
  apply Qle_shift_div_l; [done|].
  assert (P / R * y == P * y / R)%Q as -> by (field; lra).
  apply Qle_shift_div_r; [lra|]. nra.
Qed.

Lemma binary64_ulp_pos (q : Q) : (0 < binary64_ulp q)%Q.
Proof. unfold binary64_ulp. by apply Qpower_0_lt. Qed.

Lemma binary64_this (q : Qc) :
  (this (binary64 q)
   == inject_Z (round_half_even (q / binary64_ulp q)) * binary64_ulp q)%Q.
Proof. unfold binary64, Q2Qc. cbn [this]. apply Qred_correct. Qed.

Lemma binary64_nonneg (q : Qc) : (0 <= q)%Qc → (0 <= binary64 q)%Qc.
Proof.
  intros Hq. unfold Qcle in *. rewrite binary64_this.
  change (this 0%Qc) with 0%Q in *.
  pose proof (binary64_ulp_pos q) as Hu.
  apply Qmult_le_0_compat; [|lra].
  rewrite <-(Zle_Qle 0). apply round_half_even_nonneg.
  apply Qle_shift_div_l; [done|]. lra.
Qed.

Lemma binary64_0 : binary64 0 = 0%Qc.
Proof. by apply Qc_is_canon. Qed.

(** A number with at most 53 significant bits above [2^-1074] is a
    binary64 number. *)
Lemma binary64_exact (m k : Z) :
  0 ≤ k ≤ 1074 → Z.abs m < 2 ^ 53 →
  binary64 (Q2Qc (inject_Z m / 2 ^ k)) = Q2Qc (inject_Z m / 2 ^ k).
Proof.
  intros Hk Hm.
  destruct (decide (m = 0)) as [->|Hm0].
  { assert (Q2Qc (inject_Z 0 / 2 ^ k) = 0%Qc) as ->; [|apply binary64_0].
    apply Qc_is_canon. unfold Q2Qc. cbn [this]. rewrite !Qred_correct.
    unfold Qdiv. by rewrite Qmult_0_l. }
  set (q := Q2Qc (inject_Z m / 2 ^ k)).
  assert (this q == inject_Z m / 2 ^ k)%Q as Hq by apply Qred_correct.
  assert (0 < 2 ^ k)%Q as Hpk by by apply Qpower_0_lt.
  assert (0 < 2 ^ (53 - k))%Q as Hpk' by by apply Qpower_0_lt.
  assert (2 ^ (53 - k) * 2 ^ k == inject_Z (2 ^ 53))%Q as Hsplit.
  { rewrite <-Qpower_plus by done. replace (53 - k + k) with 53 by lia.
    done. }
  assert (0 < Qabs q ∧ Qabs q * 2 ^ k < inject_Z (2 ^ 53))%Q as [Hpos Hlt].
  { assert (this q * 2 ^ k == inject_Z m)%Q as Hqm
      by (rewrite Hq; field; lra).
    destruct (decide (0 ≤ m)) as [Hs|Hs].
    - assert (0 < inject_Z m)%Q as Hi by (rewrite <-(Zlt_Qlt 0); lia).
      assert (inject_Z m < inject_Z (2 ^ 53))%Q as Hi'
        by (rewrite <-Zlt_Qlt; lia).
      assert (0 < this q)%Q as Hq0.
      { rewrite Hq. apply Qlt_shift_div_l; lra. }
      rewrite Qabs_pos by lra. split; lra.
    - assert (inject_Z m < 0)%Q as Hi by (rewrite <-(Zlt_Qlt _ 0); lia).
      assert (inject_Z (- 2 ^ 53) < inject_Z m)%Q as Hi'
        by (rewrite <-Zlt_Qlt; lia).
      rewrite inject_Z_opp in Hi'.
      assert (this q < 0)%Q as Hq0.
      { rewrite Hq. apply Qlt_shift_div_r; lra. }
      rewrite Qabs_neg by lra. split; lra. }
  assert (Z.max (Qlog2 (Qabs q) - 52) (-1074) ≤ - k) as He.
  { apply Z.max_lub; [|lia].
    destruct (decide (Qlog2 (Qabs q) - 52 ≤ - k)) as [|Hbig]; [done|].
    exfalso. pose proof (Qlog2_le (Qabs q) Hpos) as Hlog.
    assert (2 ^ (53 - k) <= 2 ^ Qlog2 (Qabs q))%Q as Hmono
      by (apply Qpower_le_compat_l; [lia|done]).
    nra. }
  apply Qc_is_canon. rewrite binary64_this. fold q.
  unfold binary64_ulp.
  set (e := Z.max (Qlog2 (Qabs q) - 52) (-1074)) in *. clearbody e.
  assert (0 < 2 ^ e)%Q as Hpe by by apply Qpower_0_lt.
  assert (2 ^ (- k - e) * (2 ^ k * 2 ^ e) == 1)%Q as Hinv.
  { rewrite <-!Qpower_plus by done. replace (- k - e + (k + e)) with 0 by lia.
    done. }
  assert (2 ^ (- k - e) == inject_Z (2 ^ (- k - e)))%Q as Hint.
  { change 2%Q with (inject_Z 2). rewrite <-Zpower_Qpower by lia. done. }
  set (w := (2 ^ (- k - e))%Q) in *.
  set (a := (2 ^ k)%Q) in *. set (b := (2 ^ e)%Q) in *.
  assert (this q * a == inject_Z m)%Q as Hqa by (rewrite Hq; field; lra).
  rewrite (round_half_even_Z _ (m * 2 ^ (- k - e))).
  - rewrite inject_Z_mult, <-Hint. clearbody w a b.
    apply (Qmult_inj_r _ _ a); [lra|].
    transitivity (inject_Z m * (w * (a * b)))%Q; [ring|].
    rewrite Hinv, Hqa. ring.
  - rewrite inject_Z_mult, <-Hint. clearbody w a b.
    assert (¬ a * b == 0)%Q as Hab by nra.
    apply (Qmult_inj_r _ _ (a * b)); [done|].
    assert (this q / b * (a * b) == this q * a)%Q as -> by (field; lra).
    transitivity (inject_Z m * (w * (a * b)))%Q; [|ring].
    rewrite Hinv, Hqa. ring.
Qed.

Lemma Qabs_nonneg_eq (x : Q) : (0 <= x)%Q → Qabs x = x.
Proof.
  destruct x as [a b]. unfold Qle, Qabs. simpl. intros Ha.
  f_equal. apply Z.abs_eq. lia.
Qed.

(** The relative error of rounding a number that is at least 1. *)
Lemma binary64_error (q : Qc) :
  (1 <= q)%Qc →
  (this q - this q * (1 # 9007199254740992) <= this (binary64 q))%Q
  ∧ (this (binary64 q) <= this q + this q * (1 # 9007199254740992))%Q.
Proof.
  intros Hq. unfold Qcle in Hq. change (this 1%Qc) with 1%Q in Hq.
  rewrite binary64_this.
  pose proof (binary64_ulp_pos q) as Hu.
  assert (binary64_ulp q * 4503599627370496 <= this q)%Q as Hulp.
  { unfold binary64_ulp. rewrite Qabs_nonneg_eq by lra.
    assert (0 < this q)%Q as Hpos by lra.
    pose proof (Qlog2_le q Hpos) as Hlog.
    destruct (Z.max_spec (Qlog2 q - 52) (-1074)) as [[_ ->]|[_ ->]].
    - assert (2 ^ (-1074) * 4503599627370496 <= 1)%Q by by vm_compute.
      lra.
    - assert (2 ^ (Qlog2 q - 52) * 4503599627370496 == 2 ^ Qlog2 q)%Q as ->;
        [|done].
      change 4503599627370496%Q with (2 ^ 52)%Q.
      rewrite <-Qpower_plus by done. by replace (Qlog2 q - 52 + 52)
        with (Qlog2 q) by lia. }
  destruct (round_half_even_bounds (q / binary64_ulp q)) as [H1 H2].
  set (u := binary64_ulp q) in *. clearbody u.
  set (r := inject_Z (round_half_even (q / u))) in *. clearbody r.
  assert (this q / u * u == this q)%Q as Hdiv by (field; lra).
  set (t := (this q / u)%Q) in *. clearbody t.
  split; nra.
Qed.

Lemma binary64_of_Z (n : Z) :
  Z.abs n < 2 ^ 53 → binary64 (Qc_of_Z n) = Qc_of_Z n.
Proof.
  intros Hn.
  assert (Qc_of_Z n = Q2Qc (inject_Z n / 2 ^ 0)) as ->.
  { apply Qc_is_canon. unfold Qc_of_Z, Q2Qc. cbn [this].
    rewrite !Qred_correct. change (2 ^ 0)%Q with 1%Q. field. }
  by apply binary64_exact.
Qed.

(** ** The static protocol *)

Lemma py_len_static_y_train (y : list Qc) (train_frac : Qc) :
  0 ≤ static_split_idx y train_frac →
  py_len (static_y_train y train_frac)
  = Z.min (static_split_idx y train_frac) (py_len y).
Proof.
  intros Hk. unfold static_y_train. rewrite py_slice_prefix by done.
  unfold py_len. rewrite length_take, length_rolling_mean. lia.
Qed.

(** Below its guard, an iteration of the static horizon loop evaluates the
    forecast against [y[k + h - 1]] and the persistence value [y[k - 1]]. *)
Lemma static_sample_Ok (y : list Qc) (k p : Z)
    (fitted : StandardScaler * Ridge) (h : Z) :
  1 ≤ p → 1 ≤ k → 1 ≤ h → k + p + h < py_len y →
  n_features_in_ fitted.2 = Z.to_nat p →
  ∃ y_pred y_true y_persist,
    static_forecast y k p fitted = Ok y_pred
    ∧ y !! Z.to_nat (k + h - 1) = Some y_true
    ∧ y !! Z.to_nat (k - 1) = Some y_persist
    ∧ static_sample y k p fitted h =
      Ok (mkEntry (np_sqrt ((y_pred - y_true) ^ 2)%Qc)
            (if decide (0 < (y_persist - y_true) ^ 2)%Qc
             then (1 - (y_pred - y_true) ^ 2 / (y_persist - y_true) ^ 2)%Qc
             else 0%Qc)).
Proof.
  intros Hp Hk Hh Hguard Hfeat. unfold static_sample.
  assert (length (py_slice (rolling_mean 24 y) (Some k) (Some (k + p)))
          = Z.to_nat p) as Hwin.
  { rewrite py_slice_window_length; [f_equal; lia|lia|].
    unfold py_len in *. rewrite length_rolling_mean. lia. }
  destruct (forecast_Ok fitted
              (py_slice (rolling_mean 24 y) (Some k) (Some (k + p))))
    as [y_pred Hpred].
  { intros Hnil. rewrite Hnil in Hwin. simpl in Hwin. lia. }
  { congruence. }
  rewrite py_slice_suffix by lia.
  destruct (py_index_Ok (drop (Z.to_nat k) y) (h - 1)) as (y_true & Ht & Hlt).
  { unfold py_len in *. rewrite length_drop. lia. }
  destruct (py_index_Ok y (k - 1)) as (y_persist & Hpe & Hlp); [lia|].
  exists y_pred, y_true, y_persist.
  unfold static_forecast. rewrite Hpred, Ht, Hpe. simpl mbind.
  split; [done|]. split.
  { rewrite lookup_drop in Hlt. rewrite <- Hlt. f_equal. lia. }
  split; [done|]. apply score_total.
Qed.

Lemma static_horizon_skip (y : list Qc) (k p : Z)
    (fitted : StandardScaler * Ridge) (h : Z) (results : gmap Z Entry) :
  py_len y ≤ k + p + h → static_horizon y k p fitted h results = Ok results.
Proof. intros Hout. unfold static_horizon. by rewrite decide_True. Qed.

Lemma static_horizon_keep (y : list Qc) (k p : Z)
    (fitted : StandardScaler * Ridge) (h : Z) (results : gmap Z Entry)
    (e : Entry) :
  ¬ py_len y ≤ k + p + h → static_sample y k p fitted h = Ok e →
  static_horizon y k p fitted h results = Ok (<[h := e]> results).
Proof.
  intros Hin Hsample. unfold static_horizon.
  by rewrite decide_False, Hsample.
Qed.

Lemma static_loop_spec (y : list Qc) (k p : Z)
    (fitted : StandardScaler * Ridge) (hs : list Z) (r0 : gmap Z Entry) :
  1 ≤ p → 1 ≤ k → Forall (λ h, 1 ≤ h) hs →
  n_features_in_ fitted.2 = Z.to_nat p →
  ∃ results, for_each hs (static_horizon y k p fitted) r0 = Ok results ∧
    ∀ h, results !! h =
      if decide (h ∈ hs ∧ k + p + h < py_len y)
      then match static_sample y k p fitted h with
           | Ok e => Some e
           | Raise _ => None
           end
      else r0 !! h.
Proof.
  intros Hp Hk Hhs Hfeat. revert r0.
  induction Hhs as [|x hs Hx Hhs IH]; intros r0.
  - exists r0. split; [done|]. intros h. rewrite decide_False; [done|].
    intros [?%elem_of_nil _]. done.
  - simpl for_each.
    destruct (decide (py_len y ≤ k + p + x)) as [Hout|Hin].
    + rewrite static_horizon_skip by done.
      simpl mbind. destruct (IH r0) as (results & Hrun & Hlook).
      exists results. split; [done|]. intros h. rewrite Hlook.
      apply decide_ext. rewrite elem_of_cons.
      split; [intros [? ?]; by auto|]. intros [[->|?] ?]; [lia|done].
    + destruct (static_sample_Ok y k p fitted x)
        as (y_pred & y_true & y_persist & _ & _ & _ & Hsample);
        [lia..|done|].
      set (e := mkEntry _ _) in Hsample. clearbody e.
      rewrite (static_horizon_keep _ _ _ _ _ _ _ Hin Hsample). simpl mbind.
      edestruct IH as (results & Hrun & Hlook).
      exists results. split; [exact Hrun|]. intros h. rewrite Hlook.
      destruct (decide (h = x)) as [->|Hne].
      * rewrite (decide_True (P := x ∈ x :: hs ∧ _)) by (split; [left|lia]).
        rewrite Hsample, lookup_insert_eq. by case_decide.
      * rewrite lookup_insert_ne by done.
        apply decide_ext. rewrite elem_of_cons.
        split; [intros [? ?]; by auto|]. by intros [[->|?] ?].
Qed.

(** The static protocol on a training signal with more than [p >= 1]
    points. *)
Lemma static_protocol_spec (y : list Qc) (train_frac : Qc)
    (horizons : list Z) (p : Z) :
  let n := py_len y in
  let k := static_split_idx y train_frac in
  1 ≤ p → p < k → p < n → Forall (λ h, 1 ≤ h) horizons →
  ∃ fitted results,
      fit_model (static_y_train y train_frac) p = Ok fitted
      ∧ static_leaky_protocol y train_frac horizons p = Ok results
      ∧ (∀ h, is_Some (results !! h) ↔ h ∈ horizons ∧ k + p + h < n)
      ∧ (∀ h e, results !! h = Some e →
           ∃ y_pred y_true y_persist,
             static_forecast y k p fitted = Ok y_pred
             ∧ y !! Z.to_nat (k + h - 1) = Some y_true
             ∧ y !! Z.to_nat (k - 1) = Some y_persist
             ∧ e = mkEntry (np_sqrt ((y_pred - y_true) ^ 2)%Qc)
                     (if decide (0 < (y_persist - y_true) ^ 2)%Qc
                      then (1 - (y_pred - y_true) ^ 2
                                / (y_persist - y_true) ^ 2)%Qc
                      else 0%Qc)).
Proof.
  intros n k Hp Hpk Hpn Hhs.
  destruct (fit_model_Ok (static_y_train y train_frac) p)
    as (fitted & Hfit & Hfeat).
  { rewrite py_len_static_y_train; fold k; fold n; lia. }
  destruct (static_loop_spec y k p fitted horizons ∅)
    as (results & Hrun & Hlook); [lia..|done|done|].
  exists fitted, results. split; [done|]. split.
  { unfold static_leaky_protocol. rewrite Hfit. simpl mbind. exact Hrun. }
  assert (∀ h, h ∈ horizons → k + p + h < n →
    ∃ y_pred y_true y_persist,
      static_forecast y k p fitted = Ok y_pred
      ∧ y !! Z.to_nat (k + h - 1) = Some y_true
      ∧ y !! Z.to_nat (k - 1) = Some y_persist
      ∧ results !! h =
        Some (mkEntry (np_sqrt ((y_pred - y_true) ^ 2)%Qc)
                (if decide (0 < (y_persist - y_true) ^ 2)%Qc
                 then (1 - (y_pred - y_true) ^ 2
                           / (y_persist - y_true) ^ 2)%Qc
                 else 0%Qc))) as Hretained.
  { intros h Hin Hguard. rewrite Forall_forall in Hhs.
    destruct (static_sample_Ok y k p fitted h)
      as (y_pred & y_true & y_persist & H1 & H2 & H3 & Hsample);
      [lia|lia|by apply Hhs|done|done|].
    exists y_pred, y_true, y_persist. repeat (split; [done|]).
    rewrite Hlook, decide_True by done. by rewrite Hsample. }
  split.
  - intros h. split.
    + intros [e He]. rewrite Hlook in He.
      destruct (decide (h ∈ horizons ∧ k + p + h < py_len y)); [done|].
      by rewrite lookup_empty in He.
    + intros [Hin Hguard].
      destruct (Hretained h Hin Hguard) as (? & ? & ? & _ & _ & _ & ->).
      by eexists.
  - intros h e He.
    assert (h ∈ horizons ∧ k + p + h < n) as [Hin Hguard].
    { rewrite Hlook in He.
      destruct (decide (h ∈ horizons ∧ k + p + h < py_len y)); [done|].
      by rewrite lookup_empty in He. }
    destruct (Hretained h Hin Hguard)
      as (y_pred & y_true & y_persist & H1 & H2 & H3 & Hres).
    exists y_pred, y_true, y_persist. repeat (split; [done|]). congruence.
Qed.

(** *** The static protocol on every non-negative train fraction *)

Lemma py_int_nonneg (q : Qc) :
  (0 <= q)%Qc → 0 ≤ py_int q ∧ py_int q = Qfloor q.
Proof.
  unfold py_int, Qfloor, Qcle, Qle. destruct q as [[a b] Hq]. simpl.
  intros Ha.
  assert (0 ≤ a) by lia.
  split; [apply Z.quot_pos; lia|by apply Z.quot_div_nonneg].
Qed.

Lemma static_split_idx_nonneg (y : list Qc) (train_frac : Qc) :
  (0 <= train_frac)%Qc →
  0 ≤ static_split_idx y train_frac
  ∧ static_split_idx y train_frac
    = Qfloor (binary64 (binary64 (Qc_of_Z (py_len y)) * binary64 train_frac)).
Proof.
  intros Htf. apply py_int_nonneg, binary64_nonneg.
  apply Qcmult_nonneg_nonneg; apply binary64_nonneg; [|done].
  rewrite <- Z2Qc_inj_0. apply (proj1 (Z2Qc_inj_le 0 (py_len y))).
  apply py_len_nonneg.
Qed.

(** Fitting raises exactly when the training signal has at most [p] points
    or the lag order is not positive. *)
Lemma fit_model_raises (y_train : list Qc) (p : Z) :
  ¬ (1 ≤ p < py_len y_train) → fit_model y_train p = Raise ValueError.
Proof.
  intros Hbad. unfold fit_model.
  destruct (decide (y_train = [])) as [->|Hne]; [done|].
  destruct (scaler_fit_Ok y_train Hne) as (sc & ->). simpl mbind.
  destruct (scaler_transform_Ok sc y_train Hne) as (zs & -> & Hzs).
  simpl mbind. unfold lagged_matrix.
  destruct (decide (p ≤ 0)) as [Hp|Hp]; [done|]. simpl mbind.
  rewrite py_slice_suffix by lia.
  set (cols := np_roll zs <$> seq 1 (Z.to_nat p)).
  destruct (column_stack_shape cols (length zs)) as [Hrows _].
  { unfold cols. destruct (Z.to_nat p) eqn:Hn; [lia|done]. }
  { unfold cols. apply Forall_fmap, Forall_true. intros i. simpl.
    apply length_np_roll. }
  rewrite drop_ge; [done|]. unfold py_len in Hbad. lia.
Qed.

(** C6. With the split index [k = int(n * train_frac)] as the floats give
    it, the floor of the rounded product (which is [floor(n * train_frac)]
    whenever the length, the train fraction and their product are doubles),
    for a non-negative train fraction and positive horizons: when the
    training signal has more than [p >= 1] points, the static protocol
    returns a result whose horizons are exactly the input horizons with
    [k + p + h < n] (the others are left out without an error), and for each
    of them the prediction is scored against the series value at index
    [k + h - 1] and against the persistence value, the series value at index
    [k - 1]; otherwise fitting raises and there is no result. *)
Theorem static_retained_horizons (y : list Qc) (train_frac : Qc)
    (horizons : list Z) (p : Z) :
  let n := py_len y in
  let k := static_split_idx y train_frac in
  (0 <= train_frac)%Qc → Forall (λ h, 1 ≤ h) horizons →
  k = Qfloor (binary64 (binary64 (Qc_of_Z n) * binary64 train_frac))
  ∧ (binary64 (Qc_of_Z n) = Qc_of_Z n → binary64 train_frac = train_frac →
     binary64 (Qc_of_Z n * train_frac) = (Qc_of_Z n * train_frac)%Qc →
     k = Qfloor (Qc_of_Z n * train_frac)%Qc)
  ∧ (¬ (1 ≤ p < Z.min k n) →
     static_leaky_protocol y train_frac horizons p = Raise ValueError)
  ∧ (1 ≤ p < Z.min k n →
     ∃ fitted results,
       fit_model (static_y_train y train_frac) p = Ok fitted
       ∧ static_leaky_protocol y train_frac horizons p = Ok results
       ∧ (∀ h, is_Some (results !! h) ↔ h ∈ horizons ∧ k + p + h < n)
       ∧ (∀ h e, results !! h = Some e →
            ∃ y_pred y_true y_persist,
              static_forecast y k p fitted = Ok y_pred
              ∧ y !! Z.to_nat (k + h - 1) = Some y_true
              ∧ y !! Z.to_nat (k - 1) = Some y_persist
              ∧ e = mkEntry (np_sqrt ((y_pred - y_true) ^ 2)%Qc)
                      (if decide (0 < (y_persist - y_true) ^ 2)%Qc
                       then (1 - (y_pred - y_true) ^ 2
                                 / (y_persist - y_true) ^ 2)%Qc
                       else 0%Qc))).
Proof.
  intros n k Htf Hhs.
  destruct (static_split_idx_nonneg y train_frac Htf) as [Hk Hfloor].
  split; [done|]. split; [|split].
  - intros Hn Hf Hprod. unfold k. rewrite Hfloor. fold n.
    by rewrite Hn, Hf, Hprod.
  - intros Hbad. unfold static_leaky_protocol.
    rewrite fit_model_raises; [done|].
    rewrite py_len_static_y_train by done. exact Hbad.
  - intros Hgood.
    apply (static_protocol_spec y train_frac horizons p); [lia..|done].
Qed.

(** ** The loops of the rolling protocol *)

Lemma append_samples_unzip (es : list Entry) (a b : list Qc) :
  append_samples (a, b) es = (a ++ (rmse <$> es), b ++ (skill <$> es)).
Proof.
  revert a b. induction es as [|e es IH]; intros a b.
  - simpl. by rewrite !app_nil_r.
  - change (append_samples (a, b) (e :: es))
      with (append_samples (a ++ [rmse e], b ++ [skill e]) es).
    rewrite IH. by rewrite <- !app_assoc.
Qed.

Lemma multiplicity_cons (h x : Z) (hs : list Z) :
  multiplicity h (x :: hs) =
  if decide (x = h) then S (multiplicity h hs) else multiplicity h hs.
Proof. unfold multiplicity. rewrite filter_cons. by case_decide. Qed.

Lemma multiplicity_pos (h : Z) (hs : list Z) :
  h ∈ hs → (0 < multiplicity h hs)%nat.
Proof.
  induction 1 as [h hs|h x hs Hin IH]; rewrite multiplicity_cons.
  - rewrite decide_True by done. lia.
  - case_decide; lia.
Qed.

Lemma rolling_horizon_skip (y : list Qc) (o p : Z)
    (fitted : StandardScaler * Ridge) (h : Z) (results : gmap Z Samples) :
  py_len y ≤ o + h → rolling_horizon y o p fitted h results = Ok results.
Proof. intros Hout. unfold rolling_horizon. by rewrite decide_True. Qed.

Lemma rolling_horizon_keep (y : list Qc) (o p : Z)
    (fitted : StandardScaler * Ridge) (h : Z) (results : gmap Z Samples)
    (e : Entry) (acc : Samples) :
  ¬ py_len y ≤ o + h → rolling_sample y o p fitted h = Ok e →
  results !! h = Some acc →
  rolling_horizon y o p fitted h results
  = Ok (<[h := append_sample acc e]> results).
Proof.
  intros Hin Hsample Hacc. unfold rolling_horizon, dict_get.
  by rewrite decide_False, Hsample, Hacc.
Qed.

Lemma rolling_horizon_keep_inv (y : list Qc) (o p : Z)
    (fitted : StandardScaler * Ridge) (h : Z) (r r' : gmap Z Samples) :
  ¬ py_len y ≤ o + h → rolling_horizon y o p fitted h r = Ok r' →
  ∃ e acc, rolling_sample y o p fitted h = Ok e ∧ r !! h = Some acc
           ∧ r' = <[h := append_sample acc e]> r.
Proof.
  intros Hin. unfold rolling_horizon, dict_get. rewrite decide_False by done.
  intros (e & He & (acc & Hacc & [= <-])%bind_Ok)%bind_Ok.
  exists e, acc. destruct (r !! h); by simplify_eq.
Qed.

Lemma origin_samples_skip (y : list Qc) (p o h : Z) :
  py_len y ≤ o + h → origin_samples y p o h = [].
Proof. intros Hout. unfold origin_samples. by rewrite decide_True. Qed.

Lemma origin_samples_keep (y : list Qc) (p o h : Z) (e : Entry) :
  ¬ py_len y ≤ o + h → sample_at y p o h = Ok e →
  origin_samples y p o h = [e].
Proof.
  intros Hin He. unfold origin_samples. by rewrite decide_False, He.
Qed.

(** The horizon loop at one origin, read backwards from a successful run. *)
Lemma rolling_horizons_inv (y : list Qc) (o p : Z)
    (fitted : StandardScaler * Ridge) (hs : list Z) (r0 r : gmap Z Samples) :
  fit_model (rolling_y_train y o) p = Ok fitted →
  for_each hs (rolling_horizon y o p fitted) r0 = Ok r →
  (∀ h, h ∈ hs → o + h < py_len y → ∃ e, sample_at y p o h = Ok e)
  ∧ ∀ h, r !! h =
      (λ acc, append_samples acc
                (origin_samples y p o h ≫= replicate (multiplicity h hs)))
      <$> r0 !! h.
Proof.
  intros Hfit. revert r0. induction hs as [|x hs IH]; intros r0.
  - intros [= <-]. split; [by intros h ?%elem_of_nil|].
    intros h. unfold multiplicity. rewrite filter_nil. simpl.
    replace (origin_samples y p o h ≫= replicate 0) with (@nil Entry)
      by (unfold origin_samples; repeat case_match; done).
    by destruct (r0 !! h).
  - simpl for_each. intros (r1 & Hstep & Hrest)%bind_Ok.
    destruct (IH r1 Hrest) as [Hsamples Hlook].
    destruct (decide (py_len y ≤ o + x)) as [Hout|Hin].
    + rewrite rolling_horizon_skip in Hstep by done. injection Hstep as <-.
      split.
      * intros h [->|Hh]%elem_of_cons Hguard; [lia|by apply Hsamples].
      * intros h. rewrite Hlook, multiplicity_cons.
        case_decide as Hx; [subst x|done].
        by rewrite origin_samples_skip.
    + apply rolling_horizon_keep_inv in Hstep
        as (e & acc & He & Hacc & ->); [|done].
      assert (sample_at y p o x = Ok e) as Hat
        by (unfold sample_at; by rewrite Hfit).
      split.
      * intros h [->|Hh]%elem_of_cons Hguard; [by exists e|by apply Hsamples].
      * intros h. rewrite Hlook, multiplicity_cons.
        case_decide as Hx; [subst x|by rewrite lookup_insert_ne].
        rewrite lookup_insert_eq, Hacc. simpl.
        rewrite (origin_samples_keep _ _ _ _ e) by done.
        simpl. by rewrite !app_nil_r.
Qed.

(** The origin loop, read backwards from a successful run. *)
Lemma rolling_origins_inv (y : list Qc) (p : Z) (hs os : list Z)
    (r0 r : gmap Z Samples) :
  for_each os (rolling_origin y hs p) r0 = Ok r →
  (∀ o h, o ∈ os → h ∈ hs → o + h < py_len y →
     ∃ e, sample_at y p o h = Ok e)
  ∧ ∀ h, r !! h =
      (λ acc, append_samples acc (recorded y p hs os h)) <$> r0 !! h.
Proof.
  revert r0. induction os as [|o os IH]; intros r0.
  - intros [= <-]. split; [by intros o h ?%elem_of_nil|].
    intros h. unfold recorded. simpl. by destruct (r0 !! h).
  - simpl for_each. intros (r1 & Hstep & Hrest)%bind_Ok.
    unfold rolling_origin in Hstep.
    apply bind_Ok in Hstep as (fitted & Hfit & Hloop).
    destruct (rolling_horizons_inv _ _ _ _ _ _ _ Hfit Hloop)
      as [Hsamples1 Hlook1].
    destruct (IH r1 Hrest) as [Hsamples Hlook].
    split.
    + intros o' h [->|Ho]%elem_of_cons Hh Hguard;
        [by apply Hsamples1|by apply Hsamples].
    + intros h. rewrite Hlook, Hlook1. unfold recorded.
      rewrite bind_cons, bind_app.
      destruct (r0 !! h) as [acc|]; [|done]. simpl.
      unfold append_samples. by rewrite foldl_app.
Qed.

(** The result of a successful run, horizon by horizon. *)
Lemma rolling_summary_lookup (y : list Qc) (hs : list Z) (W_min step p : Z)
    (origins : list Z) (summary : gmap Z Entry) :
  rolling_origins (py_len y) hs W_min step = Ok origins →
  rolling_origin_causal_protocol y hs W_min step p = Ok summary →
  (∀ o h, o ∈ origins → h ∈ hs → o + h < py_len y →
     ∃ e, sample_at y p o h = Ok e)
  ∧ ∀ h, summary !! h =
      if decide (h ∈ hs)
      then if decide (recorded y p hs origins h = []) then None
           else Some (mkEntry (np_mean (rmse <$> recorded y p hs origins h))
                        (np_mean (skill <$> recorded y p hs origins h)))
      else None.
Proof.
  intros Horig. unfold rolling_origin_causal_protocol. rewrite Horig.
  simpl mbind. intros (r & Hloop & Hagg)%bind_Ok.
  destruct (rolling_origins_inv _ _ _ _ _ _ Hloop) as [Hsamples Hlook].
  destruct (aggregate_spec hs r) as (s' & Hagg' & Hlook').
  { intros h Hh. rewrite Hlook, init_results_lookup, decide_True by done.
    by eexists. }
  rewrite Hagg in Hagg'. injection Hagg' as <-.
  split; [done|]. intros h. rewrite Hlook'.
  case_decide as Hh; [|done].
  unfold aggregated. rewrite Hlook, init_results_lookup, decide_True by done.
  simpl. rewrite append_samples_unzip. simpl.
  destruct (recorded y p hs origins h) as [|e es].
  - rewrite decide_False by (unfold py_len; simpl; lia).
    by rewrite decide_True.
  - rewrite decide_True by (unfold py_len; simpl; lia).
    by rewrite decide_False.
Qed.

(** The origins that pass the guard of [h] each contribute the sample
    computed at that origin, in order. *)
Lemma origin_samples_contributing (y : list Qc) (p : Z) (os : list Z) (h : Z) :
  (∀ o, o ∈ os → o + h < py_len y → ∃ e, sample_at y p o h = Ok e) →
  ∃ samples,
    Forall2 (λ o s, sample_at y p o h = Ok s)
      (filter (λ o, o + h < py_len y) os) samples
    ∧ os ≫= (λ o, origin_samples y p o h) = samples.
Proof.
  induction os as [|o os IH]; intros Hok.
  - exists []. split; [constructor|done].
  - destruct IH as (samples & Hall & Heq).
    { intros o' Ho'. apply Hok. by right. }
    rewrite bind_cons, filter_cons.
    destruct (decide (o + h < py_len y)) as [Hin|Hout].
    + destruct (Hok o) as [e He]; [left|done|].
      exists (e :: samples). split; [by constructor|].
      rewrite (origin_samples_keep _ _ _ _ e) by (done || lia).
      by rewrite Heq.
    + exists samples. split; [done|].
      rewrite origin_samples_skip by lia. by rewrite Heq.
Qed.

(** *** Means are insensitive to repeating every sample equally often *)

Lemma np_sum_app (l k : list Qc) : (np_sum (l ++ k) = np_sum l + np_sum k)%Qc.
Proof.
  induction l as [|x l IH]; simpl; [ring|]. rewrite IH. ring.
Qed.

Lemma Qc_of_nat_S (n : nat) : (Qc_of_nat (S n) = 1 + Qc_of_nat n)%Qc.
Proof.
  unfold Qc_of_nat. rewrite Nat2Z.inj_succ, <- Z.add_1_l, Z2Qc_inj_add.
  by rewrite Z2Qc_inj_1.
Qed.

Lemma Qc_of_nat_mul (n m : nat) :
  (Qc_of_nat (n * m) = Qc_of_nat n * Qc_of_nat m)%Qc.
Proof. unfold Qc_of_nat. by rewrite Nat2Z.inj_mul, Z2Qc_inj_mul. Qed.

Lemma Qc_of_nat_nonzero (n : nat) : n ≠ 0%nat → Qc_of_nat n ≠ 0%Qc.
Proof.
  intros Hn Hz. unfold Qc_of_nat in Hz. rewrite <- Z2Qc_inj_0 in Hz.
  apply Z2Qc_inj in Hz. lia.
Qed.

Lemma np_sum_replicate (c : nat) (x : Qc) :
  (np_sum (replicate c x) = Qc_of_nat c * x)%Qc.
Proof.
  induction c as [|c IH].
  - change (Qc_of_nat 0) with (Qc_of_Z 0). rewrite Z2Qc_inj_0. simpl. ring.
  - rewrite Qc_of_nat_S. simpl. rewrite IH. ring.
Qed.

Lemma np_sum_repeat (c : nat) (l : list Qc) :
  (np_sum (l ≫= replicate c) = Qc_of_nat c * np_sum l)%Qc.
Proof.
  induction l as [|x l IH]; [simpl; ring|].
  rewrite bind_cons, np_sum_app, np_sum_replicate, IH. simpl. ring.
Qed.

Lemma length_repeat {A : Type} (c : nat) (l : list A) :
  length (l ≫= replicate c) = (c * length l)%nat.
Proof.
  induction l as [|x l IH]; [simpl; lia|].
  rewrite bind_cons, length_app, length_replicate, IH. simpl. lia.
Qed.

Lemma fmap_repeat {A B : Type} (f : A → B) (c : nat) (l : list A) :
  f <$> (l ≫= replicate c) = (f <$> l) ≫= replicate c.
Proof.
  induction l as [|x l IH]; [done|].
  rewrite fmap_cons, !bind_cons, fmap_app, fmap_replicate. by rewrite IH.
Qed.

Lemma np_mean_repeat (c : nat) (l : list Qc) :
  (0 < c)%nat → np_mean (l ≫= replicate c) = np_mean l.
Proof.
  intros Hc. destruct l as [|x l]; [done|].
  unfold np_mean. rewrite np_sum_repeat, length_repeat, Qc_of_nat_mul.
  field. split; apply Qc_of_nat_nonzero; simpl; lia.
Qed.

Lemma recorded_contributing (y : list Qc) (p : Z) (hs os : list Z) (h : Z) :
  h ∈ hs →
  (∀ o, o ∈ os → o + h < py_len y → ∃ e, sample_at y p o h = Ok e) →
  ∃ samples,
    Forall2 (λ o s, sample_at y p o h = Ok s)
      (filter (λ o, o + h < py_len y) os) samples
    ∧ (recorded y p hs os h = [] ↔ samples = [])
    ∧ np_mean (rmse <$> recorded y p hs os h) = np_mean (rmse <$> samples)
    ∧ np_mean (skill <$> recorded y p hs os h) = np_mean (skill <$> samples).
Proof.
  intros Hh Hok.
  destruct (origin_samples_contributing y p os h Hok)
    as (samples & Hall & Heq).
  pose proof (multiplicity_pos h hs Hh) as Hc.
  exists samples. split; [done|]. unfold recorded. rewrite Heq.
  split; [|by rewrite !fmap_repeat, !np_mean_repeat].
  split; [|by intros ->].
  intros Hnil%(f_equal length). rewrite length_repeat in Hnil.
  apply length_zero_iff_nil. simpl in Hnil. nia.
Qed.

(** C7. In a successful run of the rolling protocol, a horizon outside the
    horizon list is absent from the result; for a horizon [h] of the list,
    the origins with [origin + h < n] each produced one sample, the horizon
    is absent when there is no such origin, and otherwise its RMSE and skill
    are the arithmetic means of the RMSE and skill of exactly those
    samples. *)
Theorem rolling_summary_mean (y : list Qc) (hs : list Z) (W_min step p : Z)
    (origins : list Z) (summary : gmap Z Entry) :
  rolling_origins (py_len y) hs W_min step = Ok origins →
  rolling_origin_causal_protocol y hs W_min step p = Ok summary →
  ∀ h,
    (h ∉ hs → summary !! h = None)
    ∧ (h ∈ hs →
       ∃ samples,
         Forall2 (λ o s, sample_at y p o h = Ok s)
           (filter (λ o, o + h < py_len y) origins) samples
         ∧ summary !! h =
           if decide (samples = []) then None
           else Some (mkEntry (np_mean (rmse <$> samples))
                        (np_mean (skill <$> samples)))).
Proof.
  intros Horig Hrun h.
  destruct (rolling_summary_lookup _ _ _ _ _ _ _ Horig Hrun)
    as [Hsamples Hlook].
  split.
  - intros Hh. by rewrite Hlook, decide_False.
  - intros Hh.
    destruct (recorded_contributing y p hs origins h Hh)
      as (samples & Hall & Hnil & Hrmse & Hskill).
    { intros o Ho Hguard. by apply Hsamples. }
    exists samples. split; [done|].
    rewrite Hlook, decide_True by done.
    rewrite (decide_ext _ _ _ _ Hnil). case_decide; [done|].
    by rewrite Hrmse, Hskill.
Qed.

(** *** The rolling protocol returns *)

Lemma py_len_rolling_y_train (y : list Qc) (o : Z) :
  0 ≤ o → py_len (rolling_y_train y o) = Z.min o (py_len y).
Proof.
  intros Ho. rewrite rolling_y_train_prefix by done.
  unfold py_len. rewrite length_rolling_mean, length_take. lia.
Qed.

Lemma rolling_sample_Ok (y : list Qc) (o p : Z)
    (fitted : StandardScaler * Ridge) (h : Z) :
  1 ≤ p ≤ o → 1 ≤ h → o + h < py_len y →
  n_features_in_ fitted.2 = Z.to_nat p →
  ∃ e, rolling_sample y o p fitted h = Ok e.
Proof.
  intros Hp Hh Hguard Hfeat. unfold rolling_sample, rolling_forecast.
  assert (length (py_slice (rolling_y_train y o) (Some (- p)) None)
          = Z.to_nat p) as Hwin.
  { apply py_slice_tail_length. rewrite py_len_rolling_y_train; lia. }
  destruct (forecast_Ok fitted
              (py_slice (rolling_y_train y o) (Some (- p)) None))
    as [y_pred ->].
  { intros Hnil. rewrite Hnil in Hwin. simpl in Hwin. lia. }
  { congruence. }
  destruct (py_index_Ok y (o + h - 1)) as (y_true & -> & _); [lia|].
  destruct (py_index_Ok y (o - 1)) as (y_persist & -> & _); [lia|].
  simpl mbind. rewrite score_total. by eexists.
Qed.

Lemma rolling_horizons_Ok (y : list Qc) (o p : Z)
    (fitted : StandardScaler * Ridge) (hs : list Z) (r0 : gmap Z Samples) :
  1 ≤ p ≤ o → Forall (λ h, 1 ≤ h) hs →
  n_features_in_ fitted.2 = Z.to_nat p →
  (∀ h, h ∈ hs → is_Some (r0 !! h)) →
  ∃ r, for_each hs (rolling_horizon y o p fitted) r0 = Ok r
       ∧ ∀ h, is_Some (r0 !! h) → is_Some (r !! h).
Proof.
  intros Hp Hhs Hfeat. revert r0.
  induction Hhs as [|x hs Hx Hhs IH]; intros r0 Hkeys.
  - by exists r0.
  - simpl for_each.
    assert (∃ r1, rolling_horizon y o p fitted x r0 = Ok r1
                  ∧ ∀ h, is_Some (r0 !! h) → is_Some (r1 !! h))
      as (r1 & -> & Hkeys1).
    { destruct (decide (py_len y ≤ o + x)) as [Hout|Hin].
      - exists r0. by rewrite rolling_horizon_skip.
      - destruct (rolling_sample_Ok y o p fitted x) as [e He];
          [lia..|done|].
        destruct (Hkeys x) as [acc Hacc]; [left|].
        eexists. split; [by apply rolling_horizon_keep|].
        intros h Hsome. destruct (decide (h = x)) as [->|Hne].
        + rewrite lookup_insert_eq. by eexists.
        + by rewrite lookup_insert_ne. }
    simpl mbind. destruct (IH r1) as (r & Hr & Hkeys').
    { intros h Hh. apply Hkeys1, Hkeys. by right. }
    exists r. split; [done|]. intros h Hsome. by apply Hkeys', Hkeys1.
Qed.

Lemma rolling_origin_fitted (y : list Qc) (hs : list Z) (p o : Z)
    (r0 : gmap Z Samples) (fitted : StandardScaler * Ridge) :
  fit_model (rolling_y_train y o) p = Ok fitted →
  rolling_origin y hs p o r0
  = for_each hs (rolling_horizon y o p fitted) r0.
Proof. intros Hfit. unfold rolling_origin. by rewrite Hfit. Qed.

Lemma rolling_origins_Ok (y : list Qc) (p : Z) (hs os : list Z)
    (r0 : gmap Z Samples) :
  1 ≤ p → Forall (λ o, p < o < py_len y) os → Forall (λ h, 1 ≤ h) hs →
  (∀ h, h ∈ hs → is_Some (r0 !! h)) →
  ∃ r, for_each os (rolling_origin y hs p) r0 = Ok r
       ∧ ∀ h, h ∈ hs → is_Some (r !! h).
Proof.
  intros Hp Hos Hhs. revert r0.
  induction Hos as [|o os Ho Hos IH]; intros r0 Hkeys.
  - by exists r0.
  - simpl for_each.
    destruct (fit_model_Ok (rolling_y_train y o) p) as (fitted & Hfit & Hfeat).
    { rewrite py_len_rolling_y_train; lia. }
    rewrite (rolling_origin_fitted _ _ _ _ _ _ Hfit).
    destruct (rolling_horizons_Ok y o p fitted hs r0)
      as (r1 & -> & Hkeys1); [lia|done..|].
    simpl mbind. apply IH. intros h Hh. by apply Hkeys1, Hkeys.
Qed.

(** With a positive step, at least one horizon, positive horizons and a
    warm-up longer than the lag order, the rolling protocol returns. *)
Lemma rolling_protocol_Ok (y : list Qc) (hs : list Z) (W_min step p m : Z) :
  py_max hs = Ok m → 0 < step → 1 ≤ p < W_min → Forall (λ h, 1 ≤ h) hs →
  ∃ origins summary,
    rolling_origins (py_len y) hs W_min step = Ok origins
    ∧ rolling_origin_causal_protocol y hs W_min step p = Ok summary.
Proof.
  intros Hmax Hstep Hp Hhs.
  destruct (py_range W_min (py_len y - m) step) as [origins|e] eqn:Hrange;
    [|unfold py_range in Hrange; by rewrite decide_False in Hrange by lia].
  assert (rolling_origins (py_len y) hs W_min step = Ok origins) as Horig
    by (unfold rolling_origins; by rewrite Hmax).
  assert (1 ≤ m) as Hm.
  { destruct hs as [|x hs']; [done|].
    apply Forall_cons in Hhs as [Hx _].
    assert (x ≤ m) by (apply (py_max_bound (x :: hs')); [done|left]).
    lia. }
  destruct (rolling_origins_Ok y p hs origins (init_results hs))
    as (r & Hr & Hkeys); [lia| |done| |].
  { apply Forall_forall. intros o Ho.
    pose proof (py_range_elem _ _ _ _ _ Hstep Hrange Ho). lia. }
  { intros h Hh. rewrite init_results_lookup, decide_True by done.
    by eexists. }
  destruct (aggregate_spec hs r Hkeys) as (summary & Hagg & _).
  exists origins, summary. split; [done|].
  unfold rolling_origin_causal_protocol. rewrite Horig. simpl mbind.
  rewrite Hr. simpl mbind. done.
Qed.

Lemma filter_all {A : Type} (P : A → Prop) `{∀ x, Decision (P x)}
    (l : list A) :
  Forall P l → filter P l = l.
Proof.
  induction 1 as [|x l Hx Hl IH]; [done|].
  by rewrite filter_cons_True, IH.
Qed.

(** C10. With a positive step and [W_min < n - max(horizons)] the origin
    sequence is non-empty and every origin [o] satisfies
    [o < n - max(horizons)], so the guard [o + h >= n] is false at every
    origin for every horizon of the list.  Hence in every result the
    protocol returns each origin produced a sample at each horizon and the
    horizons of the result are exactly those of the list; and the protocol
    does return when the horizons are positive and the warm-up exceeds the
    lag order. *)
Theorem rolling_every_horizon_present (y : list Qc) (hs : list Z)
    (W_min step p m : Z) :
  py_max hs = Ok m → 0 < step → W_min < py_len y - m →
  ∃ o os,
    rolling_origins (py_len y) hs W_min step = Ok (o :: os)
    ∧ (∀ o' h, o' ∈ o :: os → h ∈ hs →
         o' < py_len y - m ∧ ¬ py_len y ≤ o' + h)
    ∧ (∀ h, h ∈ hs →
         filter (λ o', o' + h < py_len y) (o :: os) = o :: os)
    ∧ (∀ summary,
         rolling_origin_causal_protocol y hs W_min step p = Ok summary →
         (∀ h, is_Some (summary !! h) ↔ h ∈ hs)
         ∧ ∀ o' h, o' ∈ o :: os → h ∈ hs → ∃ e, sample_at y p o' h = Ok e)
    ∧ (1 ≤ p < W_min → Forall (λ h, 1 ≤ h) hs →
       ∃ summary,
         rolling_origin_causal_protocol y hs W_min step p = Ok summary).
Proof.
  intros Hmax Hstep Hwarm.
  destruct (py_range_nonempty W_min (py_len y - m) step Hstep Hwarm)
    as [os Hrange].
  assert (rolling_origins (py_len y) hs W_min step = Ok (W_min :: os))
    as Horig by (unfold rolling_origins; by rewrite Hmax).
  assert (∀ o' h, o' ∈ W_min :: os → h ∈ hs →
            o' < py_len y - m ∧ ¬ py_len y ≤ o' + h) as Hguard.
  { intros o' h Ho' Hh.
    pose proof (py_range_elem _ _ _ _ _ Hstep Hrange Ho').
    pose proof (py_max_bound hs m h Hmax Hh). lia. }
  assert (∀ h, h ∈ hs →
            filter (λ o', o' + h < py_len y) (W_min :: os) = W_min :: os)
    as Hfilter.
  { intros h Hh. apply filter_all, Forall_forall. intros o' Ho'.
    destruct (Hguard o' h Ho' Hh). lia. }
  exists W_min, os. split; [done|]. split; [done|]. split; [done|]. split.
  - intros summary Hrun.
    destruct (rolling_summary_lookup _ _ _ _ _ _ _ Horig Hrun)
      as [Hsamples Hlook].
    split.
    + intros h. rewrite Hlook.
      case_decide as Hh; [|split; [by intros [? ?]|done]].
      split; [done|]. intros _.
      destruct (recorded_contributing y p hs (W_min :: os) h Hh)
        as (samples & Hall & Hnil & _).
      { intros o' Ho' Hlt. by apply Hsamples. }
      rewrite (decide_ext _ _ _ _ Hnil).
      rewrite Hfilter in Hall by done.
      apply Forall2_cons_inv_l in Hall as (s & samples' & _ & _ & ->).
      by rewrite decide_False.
    + intros o' h Ho' Hh. apply Hsamples; [done..|].
      destruct (Hguard o' h Ho' Hh). lia.
  - intros Hp Hhs.
    destruct (rolling_protocol_Ok y hs W_min step p m)
      as (origins & summary & _ & Hrun); [done..|].
    by exists summary.
Qed.

(** * Further properties of the code *)

(** ** Order reasoning on [Qc] through [Q] *)

Lemma Qc_eq_Qeq (x y : Qc) : x = y ↔ (this x == this y)%Q.
Proof. split; [by intros ->|apply Qc_is_canon]. Qed.

Ltac qc_to_Q :=
  repeat match goal with
  | H : @eq Qc _ _ |- _ => apply Qc_eq_Qeq in H
  | H : ¬ @eq Qc _ _ |- _ => rewrite Qc_eq_Qeq in H
  | |- @eq Qc _ _ => apply Qc_eq_Qeq
  | |- ¬ @eq Qc _ _ => rewrite Qc_eq_Qeq
  end;
  unfold Qc_of_Z, Qcle, Qclt, Qcminus, Qcplus, Qcopp, Qcmult, Q2Qc,
    inject_Z in *;
  simpl this in *; rewrite ?Qred_correct in *.

Ltac qc_lra := qc_to_Q; lra.
Ltac qc_nra := qc_to_Q; nra.

Lemma Qc_div_mul (x y : Qc) : y ≠ 0%Qc → (x / y * y = x)%Qc.
Proof. intros Hy. by field. Qed.

Lemma Qc_pos_nonzero (y : Qc) : (0 < y)%Qc → y ≠ 0%Qc.
Proof. intros Hy ->. by apply Qclt_not_le in Hy. Qed.

(** ** The skill score: bound and sign *)

Lemma skill_score_value (em ep : Qc) :
  (0 <= em)%Qc → (0 < ep)%Qc →
  ((1 - em / ep <= 1)%Qc
   ∧ ((0 < 1 - em / ep)%Qc ↔ (em < ep)%Qc)
   ∧ ((1 - em / ep)%Qc = 0%Qc ↔ em = ep)
   ∧ ((1 - em / ep)%Qc = 1%Qc ↔ em = 0%Qc)).
Proof.
  intros Hem Hep.
  pose proof (Qc_div_mul em ep (Qc_pos_nonzero ep Hep)) as Hd.
  set (d := (em / ep)%Qc) in *. clearbody d.
  repeat split; intros; qc_nra.
Qed.


(** The skill of a scored sample: at most 1, and positive exactly when the
    squared error of the prediction is below that of persistence. *)
Lemma score_skill (y_pred y_true y_persist : Qc) (e : Entry) :
  score y_pred y_true y_persist = Ok e →
  (skill e <= 1)%Qc
  ∧ ((0 < skill e)%Qc
     ↔ ((y_pred - y_true) ^ 2 < (y_persist - y_true) ^ 2)%Qc).
Proof.
  rewrite score_total. intros Hscore.
  pose proof (Qc_square_nonneg (y_pred - y_true)) as Hem.
  pose proof (Qc_square_nonneg (y_persist - y_true)) as Hep.
  set (em := ((y_pred - y_true) ^ 2)%Qc) in *.
  set (ep := ((y_persist - y_true) ^ 2)%Qc) in *.
  assert (skill e = if decide (0 < ep)%Qc then (1 - em / ep)%Qc else 0%Qc)
    as -> by (by injection Hscore as <-).
  clearbody em ep.
  destruct (decide (0 < ep)%Qc) as [Hpos|Hzero].
  - destruct (skill_score_value em ep Hem Hpos) as (H1 & H2 & _). done.
  - split; [qc_lra|]. split; intros; qc_lra.
Qed.

(** ** The static protocol read backwards from a successful run *)

Lemma static_horizon_keep_inv (y : list Qc) (k p : Z)
    (fitted : StandardScaler * Ridge) (h : Z) (r r' : gmap Z Entry) :
  ¬ py_len y ≤ k + p + h → static_horizon y k p fitted h r = Ok r' →
  ∃ e, static_sample y k p fitted h = Ok e ∧ r' = <[h := e]> r.
Proof.
  intros Hin. unfold static_horizon. rewrite decide_False by done.
  intros (e & He & [= <-])%bind_Ok. by exists e.
Qed.

Lemma static_loop_inv (y : list Qc) (k p : Z)
    (fitted : StandardScaler * Ridge) (hs : list Z) (r0 r : gmap Z Entry) :
  for_each hs (static_horizon y k p fitted) r0 = Ok r →
  ∀ h e, r !! h = Some e →
    r0 !! h = Some e
    ∨ (h ∈ hs ∧ k + p + h < py_len y ∧ static_sample y k p fitted h = Ok e).
Proof.
  revert r0. induction hs as [|x hs IH]; intros r0.
  - intros [= <-] h e He. by left.
  - simpl for_each. intros (r1 & Hstep & Hrest)%bind_Ok h e He.
    destruct (IH r1 Hrest h e He) as [Hr1|(Hin & Hguard & Hsample)];
      [|right; split; [by right|done]].
    destruct (decide (py_len y ≤ k + p + x)) as [Hout|Hkeep].
    + rewrite static_horizon_skip in Hstep by done.
      injection Hstep as <-. by left.
    + apply static_horizon_keep_inv in Hstep as (e' & He' & ->); [|done].
      destruct (decide (h = x)) as [->|Hne].
      * rewrite lookup_insert_eq in Hr1. injection Hr1 as <-.
        right. split; [left|]. split; [lia|done].
      * rewrite lookup_insert_ne in Hr1 by done. by left.
Qed.

(** Every entry of a result of the static protocol is the sample of a listed
    horizon that passed the guard, for the one fitted model. *)
Lemma static_protocol_inv (y : list Qc) (train_frac : Qc) (hs : list Z)
    (p : Z) (results : gmap Z Entry) :
  static_leaky_protocol y train_frac hs p = Ok results →
  ∃ fitted,
    fit_model (static_y_train y train_frac) p = Ok fitted
    ∧ ∀ h e, results !! h = Some e →
        h ∈ hs
        ∧ static_split_idx y train_frac + p + h < py_len y
        ∧ static_sample y (static_split_idx y train_frac) p fitted h = Ok e.
Proof.
  unfold static_leaky_protocol. intros (fitted & Hfit & Hloop)%bind_Ok.
  exists fitted. split; [done|]. intros h e He.
  destruct (static_loop_inv _ _ _ _ _ _ _ Hloop h e He) as [Hempty|Hin];
    [by rewrite lookup_empty in Hempty|done].
Qed.

Lemma static_sample_inv (y : list Qc) (k p : Z)
    (fitted : StandardScaler * Ridge) (h : Z) (e : Entry) :
  static_sample y k p fitted h = Ok e →
  ∃ y_pred y_true y_persist,
    static_forecast y k p fitted = Ok y_pred
    ∧ py_index (py_slice y (Some k) None) (h - 1) = Ok y_true
    ∧ py_index y (k - 1) = Ok y_persist
    ∧ score y_pred y_true y_persist = Ok e.
Proof.
  unfold static_sample.
  intros (y_pred & Hpred & (y_true & Htrue & (y_persist & Hpers & Hscore)
    %bind_Ok)%bind_Ok)%bind_Ok.
  by exists y_pred, y_true, y_persist.
Qed.

(** X2. In every result the static protocol returns, each skill is at most
    1, and it is positive exactly when the squared error of the prediction
    against the true value is strictly below the squared error of the
    persistence value. *)
Theorem static_skill_bound (y : list Qc) (train_frac : Qc) (hs : list Z)
    (p : Z) (results : gmap Z Entry) :
  static_leaky_protocol y train_frac hs p = Ok results →
  ∀ h e, results !! h = Some e →
    (skill e <= 1)%Qc
    ∧ ∃ y_pred y_true y_persist,
        static_y_pred y train_frac p = Ok y_pred
        ∧ py_index (py_slice y (Some (static_split_idx y train_frac)) None)
            (h - 1) = Ok y_true
        ∧ py_index y (static_split_idx y train_frac - 1) = Ok y_persist
        ∧ ((0 < skill e)%Qc
           ↔ ((y_pred - y_true) ^ 2 < (y_persist - y_true) ^ 2)%Qc).
Proof.
  intros Hrun h e He.
  destruct (static_protocol_inv _ _ _ _ _ Hrun) as (fitted & Hfit & Hentries).
  destruct (Hentries h e He) as (_ & _ & Hsample).
  apply static_sample_inv in Hsample
    as (y_pred & y_true & y_persist & Hpred & Htrue & Hpers & Hscore).
  destruct (score_skill _ _ _ _ Hscore) as [Hle Hpos].
  split; [done|]. exists y_pred, y_true, y_persist.
  unfold static_y_pred. rewrite Hfit. simpl mbind. done.
Qed.

(** ** Skills reported by the rolling protocol *)

Lemma elem_of_origin_samples (y : list Qc) (p o h : Z) (e : Entry) :
  e ∈ origin_samples y p o h →
  o + h < py_len y ∧ sample_at y p o h = Ok e.
Proof.
  unfold origin_samples. case_decide as Hguard; [by intros ?%elem_of_nil|].
  destruct (sample_at y p o h) as [e'|] eqn:He; [|by intros ?%elem_of_nil].
  intros ->%list_elem_of_singleton. split; [lia|done].
Qed.

Lemma elem_of_recorded (y : list Qc) (p : Z) (hs os : list Z) (h : Z)
    (e : Entry) :
  e ∈ recorded y p hs os h →
  ∃ o, o ∈ os ∧ o + h < py_len y ∧ sample_at y p o h = Ok e.
Proof.
  unfold recorded.
  intros (e' & He & (o & He' & Ho)%list_elem_of_bind)%list_elem_of_bind.
  apply elem_of_replicate in He as [-> _].
  apply elem_of_origin_samples in He' as [Hguard Hsample]. by exists o.
Qed.

Lemma np_sum_le_length (l : list Qc) :
  Forall (λ x, (x <= 1)%Qc) l → (np_sum l <= Qc_of_nat (length l))%Qc.
Proof.
  induction 1 as [|x l Hx Hl IH].
  - change (Qc_of_nat (length [])) with (Qc_of_Z 0). simpl. qc_lra.
  - cbn [length]. rewrite Qc_of_nat_S. simpl np_sum.
    set (s := np_sum l) in *. set (n := Qc_of_nat (length l)) in *.
    clearbody s n. qc_lra.
Qed.

Lemma np_mean_le_1 (l : list Qc) :
  Forall (λ x, (x <= 1)%Qc) l → (np_mean l <= 1)%Qc.
Proof.
  intros Hl. destruct l as [|x l]; [by vm_compute|].
  pose proof (np_sum_le_length _ Hl) as Hsum. unfold np_mean.
  assert (0 < Qc_of_nat (length (x :: l)))%Qc as Hpos.
  { rewrite <- Z2Qc_inj_0. apply (proj1 (Z2Qc_inj_lt _ _)). simpl. lia. }
  pose proof (Qc_div_mul (np_sum (x :: l)) _ (Qc_pos_nonzero _ Hpos)) as Hd.
  set (s := np_sum (x :: l)) in *. set (n := Qc_of_nat _) in *.
  set (d := (s / n)%Qc) in *. clearbody d s n. qc_nra.
Qed.

Lemma sample_at_skill_le_1 (y : list Qc) (p o h : Z) (e : Entry) :
  sample_at y p o h = Ok e → (skill e <= 1)%Qc.
Proof.
  intros (y_pred & y_true & y_persist & _ & _ & _ & Hscore)%sample_at_y_pred.
  by apply score_skill in Hscore as [Hle _].
Qed.

Lemma rolling_protocol_origins (y : list Qc) (hs : list Z) (W_min step p : Z)
    (summary : gmap Z Entry) :
  rolling_origin_causal_protocol y hs W_min step p = Ok summary →
  ∃ origins, rolling_origins (py_len y) hs W_min step = Ok origins.
Proof.
  unfold rolling_origin_causal_protocol.
  intros (origins & Horig & _)%bind_Ok. by exists origins.
Qed.

(** X3. In every result the rolling protocol returns, each aggregated skill
    is at most 1. *)
Theorem rolling_skill_bound (y : list Qc) (hs : list Z) (W_min step p : Z)
    (summary : gmap Z Entry) :
  rolling_origin_causal_protocol y hs W_min step p = Ok summary →
  ∀ h e, summary !! h = Some e → (skill e <= 1)%Qc.
Proof.
  intros Hrun h e He.
  destruct (rolling_protocol_origins _ _ _ _ _ _ Hrun) as [origins Horig].
  destruct (rolling_summary_lookup _ _ _ _ _ _ _ Horig Hrun) as [_ Hlook].
  rewrite Hlook in He. repeat case_decide; try done.
  injection He as <-. cbn [skill].
  apply np_mean_le_1, Forall_fmap, Forall_forall. intros e Hin.
  apply elem_of_recorded in Hin as (o & _ & _ & Hsample).
  by eapply sample_at_skill_le_1.
Qed.

(** ** The skill the protocols record *)

(** C4. The skill recorded for a sample is [1 - err_model/err_persist] when
    [err_persist > 0] and 0 when [err_persist = 0]; the expression returns
    for all arguments (no division by zero), a squared error is either
    positive or zero, and every sample of the static and of the rolling
    protocol records the skill of its own two squared errors: each entry of
    a result of the static protocol holds that skill, and each entry of a
    result of the rolling protocol holds the mean of those skills over the
    origins that reach the horizon. *)
Theorem skill_score_policy :
  (∀ err_model err_persist : Qc,
     (0 < err_persist)%Qc →
     skill_score err_model err_persist = Ok (1 - err_model / err_persist)%Qc)
  ∧ (∀ err_model : Qc, skill_score err_model 0 = Ok 0%Qc)
  ∧ (∀ err_model err_persist : Qc,
       ∃ s, skill_score err_model err_persist = Ok s)
  ∧ (∀ y_persist y_true : Qc,
       (0 < (y_persist - y_true) ^ 2)%Qc ∨ ((y_persist - y_true) ^ 2 = 0)%Qc)
  ∧ (∀ y split_idx p fitted h e,
       static_sample y split_idx p fitted h = Ok e →
       ∃ y_pred y_true y_persist,
         static_forecast y split_idx p fitted = Ok y_pred ∧
         py_index (py_slice y (Some split_idx) None) (h - 1) = Ok y_true ∧
         py_index y (split_idx - 1) = Ok y_persist ∧
         skill_score ((y_pred - y_true) ^ 2)%Qc ((y_persist - y_true) ^ 2)%Qc
           = Ok (skill e))
  ∧ (∀ y origin p fitted h e,
       rolling_sample y origin p fitted h = Ok e →
       ∃ y_pred y_true y_persist,
         rolling_forecast y origin p fitted = Ok y_pred ∧
         py_index y (origin + h - 1) = Ok y_true ∧
         py_index y (origin - 1) = Ok y_persist ∧
         skill_score ((y_pred - y_true) ^ 2)%Qc ((y_persist - y_true) ^ 2)%Qc
           = Ok (skill e))
  ∧ (∀ y train_frac hs p results,
       static_leaky_protocol y train_frac hs p = Ok results →
       ∀ h e, results !! h = Some e →
         ∃ y_pred y_true y_persist,
           static_y_pred y train_frac p = Ok y_pred ∧
           py_index (py_slice y (Some (static_split_idx y train_frac)) None)
             (h - 1) = Ok y_true ∧
           py_index y (static_split_idx y train_frac - 1) = Ok y_persist ∧
           skill e = if decide (0 < (y_persist - y_true) ^ 2)%Qc
                     then (1 - (y_pred - y_true) ^ 2
                               / (y_persist - y_true) ^ 2)%Qc
                     else 0%Qc)
  ∧ (∀ y hs W_min step p origins summary,
       rolling_origins (py_len y) hs W_min step = Ok origins →
       rolling_origin_causal_protocol y hs W_min step p = Ok summary →
       ∀ h e, summary !! h = Some e →
         ∃ skills,
           Forall2
             (λ o s, ∃ y_pred y_true y_persist,
                rolling_y_pred y o p = Ok y_pred ∧
                py_index y (o + h - 1) = Ok y_true ∧
                py_index y (o - 1) = Ok y_persist ∧
                s = if decide (0 < (y_persist - y_true) ^ 2)%Qc
                    then (1 - (y_pred - y_true) ^ 2
                              / (y_persist - y_true) ^ 2)%Qc
                    else 0%Qc)
             (filter (λ o, o + h < py_len y) origins) skills
           ∧ skills ≠ []
           ∧ skill e = np_mean skills).
Proof.
  split; [|split; [|split; [|split; [|split; [|split; [|split]]]]]].
  - intros em ep Hpos. rewrite skill_score_total. by rewrite decide_True.
  - intros em. rewrite skill_score_total. by rewrite decide_False.
  - intros em ep. rewrite skill_score_total. by eexists.
  - intros y_persist y_true.
    destruct (Qcle_lt_or_eq _ _ (Qc_square_nonneg (y_persist - y_true)));
      [by left|by right].
  - intros y split_idx p fitted h e. unfold static_sample.
    intros (y_pred & Hpred & (y_true & Htrue & (y_persist & Hpers & Hscore)
      %bind_Ok)%bind_Ok)%bind_Ok.
    exists y_pred, y_true, y_persist. repeat (split; [done|]).
    rewrite score_total in Hscore. injection Hscore as <-.
    by rewrite skill_score_total.
  - intros y origin p fitted h e. unfold rolling_sample.
    intros (y_pred & Hpred & (y_true & Htrue & (y_persist & Hpers & Hscore)
      %bind_Ok)%bind_Ok)%bind_Ok.
    exists y_pred, y_true, y_persist. repeat (split; [done|]).
    rewrite score_total in Hscore. injection Hscore as <-.
    by rewrite skill_score_total.
  - intros y train_frac hs p results Hrun h e He.
    destruct (static_protocol_inv _ _ _ _ _ Hrun)
      as (fitted & Hfit & Hentries).
    destruct (Hentries h e He) as (_ & _ & Hsample).
    apply static_sample_inv in Hsample
      as (y_pred & y_true & y_persist & Hpred & Htrue & Hpers & Hscore).
    exists y_pred, y_true, y_persist.
    unfold static_y_pred. rewrite Hfit. cbn [mbind res_bind].
    repeat (split; [done|]).
    rewrite score_total in Hscore. by injection Hscore as <-.
  - intros y hs W_min step p origins summary Horig Hrun h e He.
    destruct (rolling_summary_lookup _ _ _ _ _ _ _ Horig Hrun)
      as [Hsamples Hlook].
    rewrite Hlook in He.
    destruct (decide (h ∈ hs)) as [Hh|]; [|done].
    destruct (recorded_contributing y p hs origins h Hh)
      as (samples & Hall & Hnil & _ & Hskill).
    { intros o Ho Hguard. by apply Hsamples. }
    destruct (decide (recorded y p hs origins h = [])) as [|Hrec]; [done|].
    injection He as <-. cbn [skill]. rewrite Hskill.
    exists (skill <$> samples). split; [|split; [|done]].
    + apply Forall2_fmap_r. eapply Forall2_impl; [exact Hall|].
      intros o s (y_pred & y_true & y_persist & Hpred & Htrue & Hpers & Hscore)
        %sample_at_y_pred.
      exists y_pred, y_true, y_persist. repeat (split; [done|]).
      rewrite score_total in Hscore. by injection Hscore as <-.
    + intros Hempty%fmap_nil_inv. by apply Hrec, Hnil.
Qed.

(** ** One prediction for all horizons *)

(** X4. In a result of the static protocol all horizons are scored against
    one and the same prediction and one and the same persistence value; only
    the true value changes with the horizon.  Two horizons with equal true
    values therefore carry equal entries. *)
Theorem static_common_prediction (y : list Qc) (train_frac : Qc)
    (hs : list Z) (p : Z) (results : gmap Z Entry) :
  static_leaky_protocol y train_frac hs p = Ok results →
  ∀ h1 h2 e1 e2, results !! h1 = Some e1 → results !! h2 = Some e2 →
    ∃ y_pred y_persist y_true1 y_true2,
      static_y_pred y train_frac p = Ok y_pred
      ∧ py_index y (static_split_idx y train_frac - 1) = Ok y_persist
      ∧ py_index (py_slice y (Some (static_split_idx y train_frac)) None)
          (h1 - 1) = Ok y_true1
      ∧ py_index (py_slice y (Some (static_split_idx y train_frac)) None)
          (h2 - 1) = Ok y_true2
      ∧ score y_pred y_true1 y_persist = Ok e1
      ∧ score y_pred y_true2 y_persist = Ok e2
      ∧ (y_true1 = y_true2 → e1 = e2).
Proof.
  intros Hrun h1 h2 e1 e2 He1 He2.
  destruct (static_protocol_inv _ _ _ _ _ Hrun) as (fitted & Hfit & Hentries).
  destruct (Hentries h1 e1 He1) as (_ & _ & Hs1).
  destruct (Hentries h2 e2 He2) as (_ & _ & Hs2).
  apply static_sample_inv in Hs1
    as (y_pred & y_true1 & y_persist & Hpred & Ht1 & Hpers & Hscore1).
  apply static_sample_inv in Hs2
    as (y_pred' & y_true2 & y_persist' & Hpred' & Ht2 & Hpers' & Hscore2).
  assert (y_pred' = y_pred) as -> by congruence.
  assert (y_persist' = y_persist) as -> by congruence.
  exists y_pred, y_persist, y_true1, y_true2.
  unfold static_y_pred. rewrite Hfit. simpl mbind.
  repeat (split; [done|]). intros ->. congruence.
Qed.

(** A sample an origin produces for a listed horizon is among those the
    loops append for that horizon. *)
Lemma recorded_elem (y : list Qc) (p : Z) (hs os : list Z) (o h : Z)
    (e : Entry) :
  o ∈ os → h ∈ hs → o + h < py_len y → sample_at y p o h = Ok e →
  e ∈ recorded y p hs os h.
Proof.
  intros Ho Hh Hguard Hsample. unfold recorded.
  apply list_elem_of_bind. exists e. split.
  - apply elem_of_replicate. split; [done|].
    pose proof (multiplicity_pos h hs Hh). lia.
  - apply list_elem_of_bind. exists o. split; [|done].
    unfold origin_samples. rewrite decide_False by lia.
    rewrite Hsample. by apply list_elem_of_singleton.
Qed.

(** X5. In a successful run of the rolling protocol every entry of the
    result is the pair of means of the samples the loops appended for its
    horizon, and at each origin the samples appended for two horizons that
    pass the guard are scored against one and the same prediction (that of
    the origin) and one and the same persistence value; two horizons with
    equal true values give equal samples. *)
Theorem rolling_common_prediction (y : list Qc) (hs : list Z)
    (W_min step p : Z) (origins : list Z) (summary : gmap Z Entry) :
  rolling_origins (py_len y) hs W_min step = Ok origins →
  rolling_origin_causal_protocol y hs W_min step p = Ok summary →
  (∀ h e, summary !! h = Some e →
     e = mkEntry (np_mean (rmse <$> recorded y p hs origins h))
           (np_mean (skill <$> recorded y p hs origins h)))
  ∧ ∀ o h1 h2,
      o ∈ origins → h1 ∈ hs → h2 ∈ hs →
      o + h1 < py_len y → o + h2 < py_len y →
      ∃ s1 s2 y_pred y_persist y_true1 y_true2,
        s1 ∈ recorded y p hs origins h1
        ∧ s2 ∈ recorded y p hs origins h2
        ∧ rolling_y_pred y o p = Ok y_pred
        ∧ py_index y (o - 1) = Ok y_persist
        ∧ py_index y (o + h1 - 1) = Ok y_true1
        ∧ py_index y (o + h2 - 1) = Ok y_true2
        ∧ score y_pred y_true1 y_persist = Ok s1
        ∧ score y_pred y_true2 y_persist = Ok s2
        ∧ (y_true1 = y_true2 → s1 = s2).
Proof.
  intros Horig Hrun.
  destruct (rolling_summary_lookup _ _ _ _ _ _ _ Horig Hrun)
    as [Hsamples Hlook].
  split.
  - intros h e He. rewrite Hlook in He.
    repeat case_decide; try done. by injection He as <-.
  - intros o h1 h2 Ho Hh1 Hh2 Hg1 Hg2.
    destruct (Hsamples o h1 Ho Hh1 Hg1) as [s1 Hs1].
    destruct (Hsamples o h2 Ho Hh2 Hg2) as [s2 Hs2].
    pose proof (recorded_elem y p hs origins o h1 s1 Ho Hh1 Hg1 Hs1) as Hin1.
    pose proof (recorded_elem y p hs origins o h2 s2 Ho Hh2 Hg2 Hs2) as Hin2.
    apply sample_at_y_pred in Hs1
      as (y_pred & y_true1 & y_persist & Hpred & Ht1 & Hpers & Hscore1).
    apply sample_at_y_pred in Hs2
      as (y_pred' & y_true2 & y_persist' & Hpred' & Ht2 & Hpers' & Hscore2).
    assert (y_pred' = y_pred) as -> by congruence.
    assert (y_persist' = y_persist) as -> by congruence.
    exists s1, s2, y_pred, y_persist, y_true1, y_true2.
    repeat (split; [done|]). intros ->. congruence.
Qed.

(** ** Which values of the series the protocols read *)

Lemma for_each_ext {A S : Type} (xs : list A) (f g : A → S → res S) (s : S) :
  (∀ x s', x ∈ xs → f x s' = g x s') →
  for_each xs f s = for_each xs g s.
Proof.
  revert s. induction xs as [|x xs IH]; intros s Hext; [done|].
  simpl. rewrite Hext by left. destruct (g x s) as [s'|e]; [|done].
  simpl. apply IH. intros x' s'' Hx'. apply Hext. by right.
Qed.

Lemma py_index_agree {A : Type} (l1 l2 : list A) (i : Z) :
  0 ≤ i → l1 !! Z.to_nat i = l2 !! Z.to_nat i →
  py_index l1 i = py_index l2 i.
Proof.
  intros Hi Hagree. unfold py_index. cbv zeta.
  rewrite !(decide_False (P := i < 0)) by lia. by rewrite Hagree.
Qed.

Lemma py_slice_agree {A : Type} (l1 l2 : list A) (lo hi : Z) :
  length l1 = length l2 → 0 ≤ lo → 0 ≤ hi →
  take (Z.to_nat hi) l1 = take (Z.to_nat hi) l2 →
  py_slice l1 (Some lo) (Some hi) = py_slice l2 (Some lo) (Some hi).
Proof.
  intros Hlen Hlo Hhi Htake. unfold py_slice, slice_bound, py_len. simpl.
  rewrite !(decide_False (P := lo < 0)), !(decide_False (P := hi < 0)) by lia.
  rewrite <- Hlen. set (len := Z.of_nat (length l1)).
  destruct (Z.to_nat (hi `min` len - lo `min` len)) as [|c] eqn:Hc; [done|].
  rewrite <- Hc. rewrite !take_drop_commute. f_equal.
  set (a := (Z.to_nat (lo `min` len) +
             Z.to_nat (hi `min` len - lo `min` len))%nat).
  apply (f_equal (take a)) in Htake. rewrite !take_take in Htake.
  by replace (a `min` Z.to_nat hi)%nat with a in Htake by lia.
Qed.

(** Fitting returns only on more than [p >= 1] training points. *)
Lemma fit_model_Ok_inv (y_train : list Qc) (p : Z)
    (fitted : StandardScaler * Ridge) :
  fit_model y_train p = Ok fitted → 1 ≤ p < py_len y_train.
Proof.
  intros Hfit.
  destruct (decide (1 ≤ p < py_len y_train)) as [Hok|Hbad]; [done|].
  by rewrite fit_model_raises in Hfit.
Qed.

Lemma static_window_agree (y1 y2 : list Qc) (k p : Z) :
  length y1 = length y2 → 0 ≤ k → 0 ≤ p →
  (∀ i : nat, Z.of_nat i < k + p → y1 !! i = y2 !! i) →
  py_slice (rolling_mean 24 y1) (Some k) (Some (k + p))
  = py_slice (rolling_mean 24 y2) (Some k) (Some (k + p)).
Proof.
  intros Hlen Hk Hp Hagree. apply py_slice_agree; [|lia..|].
  - by rewrite !length_rolling_mean.
  - rewrite <- !rolling_mean_take. f_equal. apply take_agree.
    intros i Hi. apply Hagree. lia.
Qed.

(** X6. The static protocol reads the series only below index
    [k + max(p, m)], where [m] bounds the (positive) horizons: on two series
    of equal length that agree there it gives the same outcome, result or
    exception alike.  The rest of the test region is never used. *)
Theorem static_protocol_agree (y1 y2 : list Qc) (train_frac : Qc)
    (hs : list Z) (p m : Z) :
  length y1 = length y2 →
  0 ≤ static_split_idx y1 train_frac → 1 ≤ p →
  Forall (λ h, 1 ≤ h ≤ m) hs →
  (∀ i : nat, Z.of_nat i < static_split_idx y1 train_frac + Z.max p m →
     y1 !! i = y2 !! i) →
  static_leaky_protocol y1 train_frac hs p
  = static_leaky_protocol y2 train_frac hs p.
Proof.
  intros Hlen Hk Hp Hhs Hagree.
  assert (static_split_idx y2 train_frac = static_split_idx y1 train_frac)
    as Hidx by (unfold static_split_idx, py_len; by rewrite Hlen).
  assert (py_len y2 = py_len y1) as Hn by (unfold py_len; by rewrite Hlen).
  unfold static_leaky_protocol. rewrite Hidx.
  set (k := static_split_idx y1 train_frac) in *.
  destruct (static_y_train_agree y1 y2 train_frac Hlen Hk) as [<- _].
  { intros i Hi. apply Hagree. fold k in Hi. lia. }
  destruct (fit_model (static_y_train y1 train_frac) p)
    as [fitted|e] eqn:Hfit; [|done].
  simpl mbind. apply fit_model_Ok_inv in Hfit.
  rewrite py_len_static_y_train in Hfit by done. fold k in Hfit.
  apply for_each_ext. intros h r Hh.
  rewrite Forall_forall in Hhs. specialize (Hhs h Hh).
  unfold static_horizon. rewrite Hn.
  case_decide as Hguard; [done|].
  unfold static_sample, static_forecast.
  rewrite (static_window_agree y1 y2 k p) by (done || lia ||
    (intros i Hi; apply Hagree; lia)).
  rewrite !py_slice_suffix by lia.
  rewrite (py_index_agree (drop (Z.to_nat k) y1) (drop (Z.to_nat k) y2));
    [|lia|].
  2:{ rewrite !lookup_drop. apply Hagree. lia. }
  rewrite (py_index_agree y1 y2 (k - 1)); [done|lia|].
  apply Hagree. lia.
Qed.

(** X7. The rolling protocol (non-negative warm-up, positive step, positive
    horizons) never reads the last value of the series: two series of equal
    length that agree on all indices but the last give the same outcome. *)
Theorem rolling_last_value_unused (y1 y2 : list Qc) (hs : list Z)
    (W_min step p : Z) :
  length y1 = length y2 → 0 ≤ W_min → 0 < step →
  Forall (λ h, 1 ≤ h) hs →
  (∀ i : nat, Z.of_nat i < py_len y1 - 1 → y1 !! i = y2 !! i) →
  rolling_origin_causal_protocol y1 hs W_min step p
  = rolling_origin_causal_protocol y2 hs W_min step p.
Proof.
  intros Hlen HW Hstep Hhs Hagree.
  assert (py_len y2 = py_len y1) as Hn by (unfold py_len; by rewrite Hlen).
  unfold rolling_origin_causal_protocol. rewrite Hn.
  destruct (rolling_origins (py_len y1) hs W_min step)
    as [origins|e] eqn:Horig; [|done].
  simpl mbind.
  unfold rolling_origins in Horig.
  apply bind_Ok in Horig as (m & Hmax & Hrange).
  assert (1 ≤ m) as Hm.
  { destruct hs as [|x hs']; [done|].
    apply Forall_cons in Hhs as [Hx _].
    assert (x ≤ m) by (apply (py_max_bound (x :: hs')); [done|left]).
    lia. }
  rewrite (for_each_ext origins (rolling_origin y1 hs p)
             (rolling_origin y2 hs p)); [done|].
  intros o r Ho.
  pose proof (py_range_elem _ _ _ _ _ Hstep Hrange Ho) as Hbound.
  unfold rolling_origin.
  assert (rolling_y_train y1 o = rolling_y_train y2 o) as Htrain.
  { rewrite !rolling_y_train_prefix by lia. f_equal.
    apply take_agree. intros i Hi. apply Hagree. lia. }
  rewrite <- Htrain.
  destruct (fit_model (rolling_y_train y1 o) p) as [fitted|e] eqn:Hfit;
    [|done].
  simpl mbind. apply fit_model_Ok_inv in Hfit.
  rewrite py_len_rolling_y_train in Hfit by lia.
  apply for_each_ext. intros h r' Hh.
  rewrite Forall_forall in Hhs. specialize (Hhs h Hh).
  unfold rolling_horizon. rewrite Hn.
  case_decide as Hguard; [done|].
  unfold rolling_sample, rolling_forecast. rewrite <- Htrain.
  rewrite (py_index_agree y1 y2 (o + h - 1)); [|lia|apply Hagree; lia].
  rewrite (py_index_agree y1 y2 (o - 1)); [done|lia|apply Hagree; lia].
Qed.

(** ** Degenerate arguments of the rolling protocol *)

(** X8. The rolling protocol raises [ValueError] on an empty horizon list
    (from [max]) and, for a non-empty one, on a zero step (from [range]),
    whatever the series; the static protocol on an empty horizon list still
    fits its model and returns the empty mapping. *)
Theorem rolling_degenerate_arguments :
  (∀ y W_min step p,
     rolling_origin_causal_protocol y [] W_min step p = Raise ValueError)
  ∧ (∀ y h hs W_min p,
       rolling_origin_causal_protocol y (h :: hs) W_min 0 p
       = Raise ValueError)
  ∧ (∀ y train_frac p,
       0 ≤ static_split_idx y train_frac →
       1 ≤ p < Z.min (static_split_idx y train_frac) (py_len y) →
       static_leaky_protocol y train_frac [] p = Ok ∅).
Proof.
  split; [done|]. split; [done|].
  intros y train_frac p Hk Hp. unfold static_leaky_protocol.
  destruct (fit_model_Ok (static_y_train y train_frac) p) as (fitted & -> & _);
    [by rewrite py_len_static_y_train|done].
Qed.

Lemma rolling_origin_raises (y : list Qc) (hs : list Z) (p o : Z)
    (r0 : gmap Z Samples) (e : exn) :
  fit_model (rolling_y_train y o) p = Raise e →
  rolling_origin y hs p o r0 = Raise e.
Proof. intros Hfit. unfold rolling_origin. by rewrite Hfit. Qed.

(** X9. For a positive step, positive horizons and a warm-up
    [0 <= W_min < n - max(horizons)] (so that there is a first origin), the
    rolling protocol returns a result exactly when [1 <= p < W_min];
    otherwise fitting at the first origin raises [ValueError]. *)
Theorem rolling_returns_iff (y : list Qc) (hs : list Z) (W_min step p m : Z) :
  py_max hs = Ok m → 0 < step → Forall (λ h, 1 ≤ h) hs →
  0 ≤ W_min < py_len y - m →
  (1 ≤ p < W_min →
   ∃ summary, rolling_origin_causal_protocol y hs W_min step p = Ok summary)
  ∧ (¬ (1 ≤ p < W_min) →
     rolling_origin_causal_protocol y hs W_min step p = Raise ValueError).
Proof.
  intros Hmax Hstep Hhs HW. split.
  - intros Hp.
    destruct (rolling_protocol_Ok y hs W_min step p m)
      as (origins & summary & _ & Hrun); [done..|].
    by exists summary.
  - intros Hbad.
    destruct (py_range_nonempty W_min (py_len y - m) step Hstep)
      as [os Hrange]; [lia|].
    assert (1 ≤ m) as Hm.
    { destruct hs as [|x hs']; [done|].
      apply Forall_cons in Hhs as [Hx _].
      assert (x ≤ m) by (apply (py_max_bound (x :: hs')); [done|left]).
      lia. }
    unfold rolling_origin_causal_protocol, rolling_origins.
    rewrite Hmax. simpl mbind. rewrite Hrange. simpl mbind.
    simpl for_each. rewrite (rolling_origin_raises _ _ _ _ _ ValueError);
      [done|].
    apply fit_model_raises. rewrite py_len_rolling_y_train by lia. lia.
Qed.

Lemma py_range_descending (start stop step : Z) (os : list Z) (o : Z) :
  step < 0 → py_range start stop step = Ok os → o ∈ os →
  stop < o ≤ start.
Proof.
  intros Hstep. unfold py_range.
  rewrite !decide_False by lia.
  intros [= <-] (i & -> & Hi%elem_of_seq)%list_elem_of_fmap.
  assert (0 < - step) as Hpos by lia.
  pose proof (Z.mul_div_le (start - stop - step - 1) (- step) Hpos).
  nia.
Qed.

Lemma py_range_descending_empty (start stop step : Z) :
  step < 0 → start ≤ stop → py_range start stop step = Ok [].
Proof.
  intros Hstep Hle. unfold py_range. rewrite !decide_False by lia.
  assert ((start - stop - step - 1) `div` (- step) < 1) as Hlen
    by (apply Z.div_lt_upper_bound; lia).
  by replace (Z.to_nat _) with 0%nat by lia.
Qed.

Lemma recorded_nil (y : list Qc) (p : Z) (hs os : list Z) (h : Z) :
  Forall (λ o, py_len y ≤ o + h) os → recorded y p hs os h = [].
Proof.
  intros Hos. unfold recorded.
  replace (os ≫= λ o, origin_samples y p o h) with (@nil Entry); [done|].
  induction Hos as [|o os Ho Hos IH]; [done|].
  rewrite bind_cons, origin_samples_skip by done. by rewrite <- IH.
Qed.

(** X10. With a negative step the origins run downwards from [W_min] and
    stay above [n - max(horizons)]: the largest horizon never passes the
    guard, so it is absent from every returned result, and the result is
    empty when [W_min <= n - max(horizons)]. *)
Theorem rolling_negative_step (y : list Qc) (hs : list Z)
    (W_min step p m : Z) (summary : gmap Z Entry) :
  py_max hs = Ok m → step < 0 →
  rolling_origin_causal_protocol y hs W_min step p = Ok summary →
  summary !! m = None
  ∧ (W_min ≤ py_len y - m → summary = ∅).
Proof.
  intros Hmax Hstep Hrun.
  destruct (rolling_protocol_origins _ _ _ _ _ _ Hrun) as [origins Horig].
  destruct (rolling_summary_lookup _ _ _ _ _ _ _ Horig Hrun) as [_ Hlook].
  unfold rolling_origins in Horig. rewrite Hmax in Horig. simpl in Horig.
  split.
  - rewrite Hlook. case_decide; [|done].
    rewrite recorded_nil; [by rewrite decide_True|].
    apply Forall_forall. intros o Ho.
    pose proof (py_range_descending _ _ _ _ _ Hstep Horig Ho). lia.
  - intros HW. rewrite py_range_descending_empty in Horig by done.
    injection Horig as <-.
    apply map_eq. intros h. rewrite Hlook, lookup_empty.
    case_decide; [|done]. rewrite recorded_nil by constructor.
    by rewrite decide_True.
Qed.

(** ** H* of the results of the protocols *)

(** X11. H* computed from a result of the static protocol is 0 or an input
    horizon that passed the guard [k + p + h < n]; H* computed from a result
    of the rolling protocol is 0 or an input horizon. *)
Theorem hstar_of_protocol_results :
  (∀ y train_frac hs p results threshold hstar,
     static_leaky_protocol y train_frac hs p = Ok results →
     compute_hstar results threshold = Ok hstar →
     hstar = 0
     ∨ (hstar ∈ hs ∧ static_split_idx y train_frac + p + hstar < py_len y))
  ∧ (∀ y hs W_min step p summary threshold hstar,
       rolling_origin_causal_protocol y hs W_min step p = Ok summary →
       compute_hstar summary threshold = Ok hstar →
       hstar = 0 ∨ hstar ∈ hs).
Proof.
  split.
  - intros y train_frac hs p results threshold hstar Hrun Hstar.
    destruct (compute_hstar_cases results threshold)
      as (h' & Hstar' & [[(e & He & _) _]|[-> _]]);
      rewrite Hstar in Hstar'; injection Hstar' as <-; [|by left].
    destruct (static_protocol_inv _ _ _ _ _ Hrun) as (fitted & _ & Hentries).
    destruct (Hentries hstar e He) as (Hin & Hguard & _). by right.
  - intros y hs W_min step p summary threshold hstar Hrun Hstar.
    destruct (compute_hstar_cases summary threshold)
      as (h' & Hstar' & [[(e & He & _) _]|[-> _]]);
      rewrite Hstar in Hstar'; injection Hstar' as <-; [|by left].
    destruct (rolling_protocol_origins _ _ _ _ _ _ Hrun) as [origins Horig].
    destruct (rolling_summary_lookup _ _ _ _ _ _ _ Horig Hrun) as [_ Hlook].
    rewrite Hlook in He. case_decide; [by right|done].
Qed.

(** ** The protocols on their default arguments *)

Lemma rolling_no_origin (y : list Qc) (hs : list Z) (W_min step p : Z) :
  rolling_origins (py_len y) hs W_min step = Ok [] →
  rolling_origin_causal_protocol y hs W_min step p = Ok ∅.
Proof.
  intros Horig. unfold rolling_origin_causal_protocol. rewrite Horig.
  simpl mbind. simpl for_each. simpl mbind.
  destruct (aggregate_spec hs (init_results hs)) as (summary & -> & Hlook).
  { intros h Hh. rewrite init_results_lookup, decide_True by done. by eexists. }
  f_equal. apply map_eq. intros h. rewrite Hlook, lookup_empty.
  case_decide; [|done].
  unfold aggregated. rewrite init_results_lookup, decide_True by done.
  by rewrite decide_False by (simpl; unfold py_len; simpl; lia).
Qed.

Lemma rolling_keys_all (y : list Qc) (hs : list Z) (W_min step p m : Z)
    (summary : gmap Z Entry) :
  py_max hs = Ok m → 0 < step → W_min < py_len y - m →
  rolling_origin_causal_protocol y hs W_min step p = Ok summary →
  ∀ h, is_Some (summary !! h) ↔ h ∈ hs.
Proof.
  intros Hmax Hstep Hwarm Hrun h.
  destruct (py_range_nonempty W_min (py_len y - m) step Hstep Hwarm)
    as [os Hrange].
  assert (rolling_origins (py_len y) hs W_min step = Ok (W_min :: os))
    as Horig by (unfold rolling_origins; by rewrite Hmax).
  destruct (rolling_summary_lookup _ _ _ _ _ _ _ Horig Hrun)
    as [Hsamples Hlook].
  rewrite Hlook. case_decide as Hh; [|split; [by intros [? ?]|done]].
  split; [done|]. intros _.
  destruct (recorded_contributing y p hs (W_min :: os) h Hh)
    as (samples & Hall & Hnil & _).
  { intros o' Ho' Hlt. by apply Hsamples. }
  rewrite (decide_ext _ _ _ _ Hnil).
  rewrite filter_cons_True in Hall.
  - apply Forall2_cons_inv_l in Hall as (s & samples' & _ & _ & ->).
    by rewrite decide_False.
  - pose proof (py_max_bound hs m h Hmax Hh). lia.
Qed.

(** X12. With its default arguments (horizons 1..72, warm-up 8760, step 168,
    lag order 24) the rolling protocol never raises: on a series of at most
    8832 points it returns the empty mapping, on a longer one a mapping with
    exactly the six default horizons. *)
Theorem rolling_default_arguments (y : list Qc) :
  (py_len y ≤ 8832 →
   rolling_origin_causal_protocol y default_horizons default_W_min
     default_step default_p = Ok ∅)
  ∧ (8833 ≤ py_len y →
     ∃ summary,
       rolling_origin_causal_protocol y default_horizons default_W_min
         default_step default_p = Ok summary
       ∧ ∀ h, is_Some (summary !! h) ↔ h ∈ default_horizons).
Proof.
  assert (py_max default_horizons = Ok 72) as Hmax by done.
  split.
  - intros Hshort. apply rolling_no_origin.
    unfold rolling_origins. rewrite Hmax. simpl mbind.
    apply py_range_empty; unfold default_step, default_W_min; lia.
  - intros Hlong.
    destruct (rolling_protocol_Ok y default_horizons default_W_min
                default_step default_p 72)
      as (origins & summary & _ & Hrun);
      [done|by unfold default_step|by unfold default_p, default_W_min|
       repeat constructor; lia|].
    exists summary. split; [done|].
    apply (rolling_keys_all y default_horizons default_W_min default_step
             default_p 72); [done|by unfold default_step| |done].
    unfold default_W_min. lia.
Qed.

Lemma static_split_idx_default (y : list Qc) :
  3 * py_len y < 2 ^ 53 →
  static_split_idx y default_train_frac = 3 * py_len y / 4.
Proof.
  intros Hn. pose proof (py_len_nonneg y) as Hn0.
  destruct (static_split_idx_nonneg y default_train_frac) as [_ ->];
    [by vm_compute|].
  rewrite binary64_of_Z by lia.
  assert (binary64 default_train_frac = default_train_frac) as ->
    by by apply Qc_is_canon.
  assert (Qc_of_Z (py_len y) * default_train_frac
          = Q2Qc (inject_Z (3 * py_len y) / 2 ^ 2))%Qc as ->.
  { apply Qc_is_canon. unfold default_train_frac, Qc_of_Z, Qcmult, Q2Qc.
    cbn [this]. rewrite !Qred_correct, inject_Z_mult.
    change (2 ^ 2)%Q with 4%Q. change (inject_Z 3) with 3%Q. field. }
  rewrite binary64_exact by lia.
  unfold Q2Qc. cbn [this]. rewrite (Qfloor_comp _ _ (Qred_correct _)).
  change (2 ^ 2)%Q with (inject_Z 4).
  rewrite <-(Qmake_Qdiv (3 * py_len y) 4). done.
Qed.

(** Beyond 53 bits the split index is no longer [floor(3n/4)], but stays
    between [n/2] and [4n/5]. *)
Lemma static_split_idx_default_large (y : list Qc) :
  let k := static_split_idx y default_train_frac in
  2 ^ 53 ≤ 3 * py_len y → py_len y < 2 * k ∧ 5 * k < 4 * py_len y.
Proof.
  intros k Hn. unfold k.
  destruct (static_split_idx_nonneg y default_train_frac) as [_ ->];
    [by vm_compute|].
  assert (binary64 default_train_frac = default_train_frac) as ->
    by by apply Qc_is_canon.
  set (n := py_len y) in *.
  assert (inject_Z (2 ^ 53) <= 3 * inject_Z n)%Q as HnQ.
  { change 3%Q with (inject_Z 3). rewrite <-inject_Z_mult, <-Zle_Qle. lia. }
  change (inject_Z (2 ^ 53)) with 9007199254740992%Q in HnQ.
  set (x1 := binary64 (Qc_of_Z n)).
  destruct (binary64_error (Qc_of_Z n)) as [H1 H1'].
  { rewrite <-Z2Qc_inj_1. apply (proj1 (Z2Qc_inj_le _ _)). lia. }
  fold x1 in H1, H1'.
  change (this (Qc_of_Z n)) with (inject_Z n) in H1, H1'.
  set (x2 := (x1 * default_train_frac)%Qc).
  assert (this x2 == this x1 * (3 # 4))%Q as E2.
  { unfold x2, Qcmult, Q2Qc. cbn [this]. rewrite Qred_correct.
    apply Qmult_comp; [done|]. by vm_compute. }
  destruct (binary64_error x2) as [H3 H3'].
  { unfold Qcle. change (this 1%Qc) with 1%Q. rewrite E2. lra. }
  set (x3 := binary64 x2) in *.
  pose proof (Qfloor_le x3) as Hf1. pose proof (Qlt_floor x3) as Hf2.
  rewrite inject_Z_plus in Hf2. change (inject_Z 1) with 1%Q in Hf2.
  rewrite E2 in H3, H3'.
  set (kq := inject_Z (Qfloor x3)) in *.
  assert (inject_Z n < 2 * kq ∧ 5 * kq < 4 * inject_Z n)%Q as [Ha Hb].
  { clearbody kq. set (nq := inject_Z n) in *. clearbody nq.
    set (a := this x1) in *. set (b := this x3) in *. clearbody a b.
    split; lra. }
  unfold kq in Ha, Hb.
  split; rewrite Zlt_Qlt, !inject_Z_mult; [exact Ha|exact Hb].
Qed.

(** The static protocol on its default arguments, for every length. *)
Lemma static_default_run (y : list Qc) :
  let n := py_len y in
  (n ≤ 33 →
   static_leaky_protocol y default_train_frac default_horizons default_p
   = Raise ValueError)
  ∧ (34 ≤ n →
     ∃ results,
       static_leaky_protocol y default_train_frac default_horizons default_p
       = Ok results
       ∧ ∀ h, is_Some (results !! h)
              ↔ h ∈ default_horizons ∧ 3 * n / 4 + 24 + h < n).
Proof.
  intros n. pose proof (py_len_nonneg y) as Hn. fold n in Hn.
  split.
  - intros Hshort. unfold static_leaky_protocol.
    rewrite fit_model_raises; [done|].
    rewrite py_len_static_y_train;
      rewrite static_split_idx_default by (fold n; lia);
      fold n; unfold default_p; Z.to_euclidean_division_equations; lia.
  - intros Hlong.
    set (k := static_split_idx y default_train_frac).
    assert (24 < k ∧ ∀ h, h ∈ default_horizons →
              (k + 24 + h < n ↔ 3 * n / 4 + 24 + h < n)) as [Hk Hguard].
    { destruct (decide (3 * n < 2 ^ 53)) as [Hsmall|Hbig].
      - unfold k. rewrite static_split_idx_default by done. fold n.
        split; [Z.to_euclidean_division_equations; lia|done].
      - destruct (static_split_idx_default_large y) as [H1 H2];
          [fold n; lia|]. fold n k in H1, H2.
        split; [lia|]. intros h Hh. unfold default_horizons in Hh.
        repeat (apply elem_of_cons in Hh as [->|Hh];
          [split; intros _; Z.to_euclidean_division_equations; lia|]).
        by apply elem_of_nil in Hh. }
    destruct (static_protocol_spec y default_train_frac default_horizons
                default_p)
      as (fitted & results & _ & Hrun & Hkeys & _).
    + by unfold default_p.
    + fold k. by unfold default_p.
    + fold n. unfold default_p. lia.
    + repeat constructor; lia.
    + exists results. split; [done|]. intros h. rewrite Hkeys. fold k n.
      split; intros [Hh Hlt]; (split; [done|]); by apply (Hguard h Hh).
Qed.

(** X13. With its default arguments (train fraction 0.75, horizons 1..72,
    lag order 24) the static protocol splits at [k = floor(3n/4)] as long as
    [3n] has at most 53 bits, so that the float product is exact; it raises
    [ValueError] on a series of at most 33 points and otherwise returns the
    default horizons with [k + 24 + h < n], which are all six from 385
    points on. *)
Theorem static_default_arguments (y : list Qc) :
  let n := py_len y in
  let k := 3 * n / 4 in
  (3 * n < 2 ^ 53 → static_split_idx y default_train_frac = k)
  ∧ (n ≤ 33 →
     static_leaky_protocol y default_train_frac default_horizons default_p
     = Raise ValueError)
  ∧ (34 ≤ n →
     ∃ results,
       static_leaky_protocol y default_train_frac default_horizons default_p
       = Ok results
       ∧ ∀ h, is_Some (results !! h)
              ↔ h ∈ default_horizons ∧ k + 24 + h < n)
  ∧ (385 ≤ n → ∀ h, h ∈ default_horizons → k + 24 + h < n).
Proof.
  intros n k.
  destruct (static_default_run y) as [Hshort Hlong]. fold n in Hshort, Hlong.
  split; [apply static_split_idx_default|].
  split; [done|]. split; [done|].
  intros H385 h Hh. unfold default_horizons in Hh.
  repeat (apply elem_of_cons in Hh as [->|Hh];
    [unfold k; Z.to_euclidean_division_equations; lia|]).
  by apply elem_of_nil in Hh.
Qed.

(** ** The results table of the driver *)

Lemma inflation_of_nan_r (c : cell) : inflation_of c NaN = NaN.
Proof. by destruct c. Qed.

(** X14. The inflation column [(static_skill / rolling_skill - 1) * 100]:
    for a non-zero rolling skill it is the number [(s/r - 1) * 100], which is
    positive exactly when [s > r] for a positive rolling skill but exactly
    when [s < r] for a negative one; for a zero rolling skill it is an
    infinity of the sign of [s], or [nan] when [s] is zero too; and it is
    [nan] whenever either skill is [nan].  No case raises. *)
Theorem inflation_meaning (s r : Qc) :
  (r ≠ 0%Qc →
   inflation_of (Num s) (Num r) = Num ((s / r - 1) * Qc_of_Z 100)%Qc)
  ∧ ((0 < r)%Qc → (0 < (s / r - 1) * Qc_of_Z 100)%Qc ↔ (r < s)%Qc)
  ∧ ((r < 0)%Qc → (0 < (s / r - 1) * Qc_of_Z 100)%Qc ↔ (s < r)%Qc)
  ∧ inflation_of (Num s) (Num 0%Qc)
    = (if decide (s = 0%Qc) then NaN
       else if decide (0 < s)%Qc then PosInf else NegInf)
  ∧ (∀ c, inflation_of NaN c = NaN ∧ inflation_of c NaN = NaN).
Proof.
  split; [|split; [|split; [|split]]].
  - intros Hr. unfold inflation_of, cell_div. by rewrite decide_False.
  - intros Hr. pose proof (Qc_div_mul s r (Qc_pos_nonzero r Hr)) as Hd.
    set (d := (s / r)%Qc) in *. clearbody d. split; intros; qc_nra.
  - intros Hr.
    assert (r ≠ 0%Qc) as Hne by (intros ->; by apply Qclt_not_le in Hr).
    pose proof (Qc_div_mul s r Hne) as Hd.
    set (d := (s / r)%Qc) in *. clearbody d. split; intros; qc_nra.
  - unfold inflation_of, cell_div. rewrite (decide_True (P := 0%Qc = 0%Qc))
      by done.
    repeat case_decide; done.
  - intros c. split; [done|apply inflation_of_nan_r].
Qed.

Lemma main_table_horizons (hs : list Z) (s r : gmap Z Entry) :
  horizon_h <$> main_table hs s r = hs.
Proof.
  unfold main_table.
  induction hs as [|h hs IH]; [done|]. rewrite !fmap_cons. by rewrite IH.
Qed.

Lemma main_table_complete (hs : list Z) (s r : gmap Z Entry) :
  (∀ h, h ∈ hs → is_Some (s !! h)) → (∀ h, h ∈ hs → is_Some (r !! h)) →
  Forall (λ row, ∃ ss rs sr rr,
            static_skill row = Num ss ∧ rolling_skill row = Num rs
            ∧ static_rmse row = Num sr ∧ rolling_rmse row = Num rr
            ∧ inflation row = inflation_of (Num ss) (Num rs))
    (main_table hs s r).
Proof.
  intros Hs Hr. unfold main_table. apply Forall_fmap, Forall_forall.
  intros h Hh. destruct (Hs h Hh) as [es Hes]. destruct (Hr h Hh) as [er Her].
  exists (skill es), (skill er), (rmse es), (rmse er).
  simpl. unfold get_cell. by rewrite Hes, Her.
Qed.

Lemma main_table_no_rolling (hs : list Z) (s : gmap Z Entry) :
  Forall (λ row, rolling_skill row = NaN ∧ rolling_rmse row = NaN
                 ∧ inflation row = NaN)
    (main_table hs s ∅).
Proof.
  unfold main_table. apply Forall_fmap, Forall_forall. intros h Hh. simpl.
  unfold get_cell at 1 2. rewrite lookup_empty.
  split; [done|]. split; [done|]. apply inflation_of_nan_r.
Qed.

Lemma main_Ok (y : list Qc) (s r : gmap Z Entry) (hs hr : Z) :
  static_leaky_protocol y default_train_frac default_horizons default_p
  = Ok s →
  rolling_origin_causal_protocol y default_horizons default_W_min
    default_step default_p = Ok r →
  compute_hstar s 0%Qc = Ok hs → compute_hstar r 0%Qc = Ok hr →
  main y = Ok (hs, hr, main_table default_horizons s r).
Proof.
  intros Hs Hr Hhs Hhr. unfold main.
  change [1; 6; 12; 24; 48; 72] with default_horizons.
  rewrite Hs. cbn [mbind res_bind]. rewrite Hr. cbn [mbind res_bind].
  rewrite Hhs. cbn [mbind res_bind]. by rewrite Hhr.
Qed.

(** X15. The computations of [main] by the length [n] of the generated
    series (17,520 in the source): for [n >= 8833] they return, both H* are 0
    or one of the six horizons, and the table has one row per horizon with a
    number in every skill and RMSE cell; for [34 <= n <= 8832] the rolling
    result is empty, its H* is 0 and its cells and the inflation are [nan];
    for [n <= 33] the static protocol raises [ValueError]. *)
Theorem main_by_series_length (y : list Qc) :
  (py_len y ≤ 33 → main y = Raise ValueError)
  ∧ (34 ≤ py_len y ≤ 8832 →
     ∃ hstar_static table,
       main y = Ok (hstar_static, 0, table)
       ∧ horizon_h <$> table = default_horizons
       ∧ Forall (λ row, rolling_skill row = NaN ∧ rolling_rmse row = NaN
                        ∧ inflation row = NaN) table)
  ∧ (8833 ≤ py_len y →
     ∃ hstar_static hstar_rolling table,
       main y = Ok (hstar_static, hstar_rolling, table)
       ∧ hstar_static ∈ 0 :: default_horizons
       ∧ hstar_rolling ∈ 0 :: default_horizons
       ∧ horizon_h <$> table = default_horizons
       ∧ Forall (λ row, ∃ ss rs sr rr,
                   static_skill row = Num ss ∧ rolling_skill row = Num rs
                   ∧ static_rmse row = Num sr ∧ rolling_rmse row = Num rr
                   ∧ inflation row = inflation_of (Num ss) (Num rs))
           table).
Proof.
  pose proof (py_len_nonneg y) as Hn.
  assert (py_max default_horizons = Ok 72) as Hmax by done.
  destruct (static_default_run y) as [Hraise Hstatic].
  assert (∀ (results : gmap Z Entry) hstar,
    (∀ h, is_Some (results !! h) → h ∈ default_horizons) →
    compute_hstar results 0%Qc = Ok hstar → hstar ∈ 0 :: default_horizons)
    as Hstar_in.
  { intros results hstar Hkeys Hstar.
    destruct (compute_hstar_cases results 0%Qc)
      as (h' & Hstar' & [[(e & He & _) _]|[-> _]]);
      rewrite Hstar in Hstar'; injection Hstar' as <-; [|left].
    right. apply Hkeys. by eexists. }
  split; [|split].
  - intros Hshort. pose proof (Hraise Hshort) as Hr.
    unfold default_horizons in Hr. unfold main. by rewrite Hr.
  - intros [Hlo Hhi].
    destruct (Hstatic Hlo) as (results & Hrun & _).
    destruct (compute_hstar_cases results 0%Qc) as (hs & Hhs & _).
    exists hs, (main_table default_horizons results ∅).
    split; [|split; [apply main_table_horizons|apply main_table_no_rolling]].
    apply main_Ok; [done| |done..].
    apply rolling_no_origin.
    unfold rolling_origins. rewrite Hmax. simpl mbind.
    apply py_range_empty; unfold default_step, default_W_min; lia.
  - intros Hlong.
    destruct Hstatic as (results & Hrun & Hkeys); [lia|].
    destruct (rolling_protocol_Ok y default_horizons default_W_min
                default_step default_p 72)
      as (origins & summary & _ & Hroll);
      [done|by unfold default_step|by unfold default_p, default_W_min|
       repeat constructor; lia|].
    assert (∀ h, is_Some (summary !! h) ↔ h ∈ default_horizons) as Hrkeys.
    { apply (rolling_keys_all y default_horizons default_W_min default_step
               default_p 72); [done|by unfold default_step| |done].
      unfold default_W_min. lia. }
    destruct (compute_hstar_cases results 0%Qc) as (hs & Hhs & _).
    destruct (compute_hstar_cases summary 0%Qc) as (hr & Hhr & _).
    exists hs, hr, (main_table default_horizons results summary).
    split; [by apply main_Ok|].
    split; [apply (Hstar_in results); [intros h Hh; by apply Hkeys|done]|].
    split; [apply (Hstar_in summary); [intros h Hh; by apply Hrkeys|done]|].
    split; [apply main_table_horizons|].
    apply main_table_complete.
    + intros h Hh. apply Hkeys. split; [done|].
      unfold default_horizons in Hh.
      repeat (apply elem_of_cons in Hh as [->|Hh];
        [Z.to_euclidean_division_equations; lia|]).
      by apply elem_of_nil in Hh.
    + intros h Hh. by apply Hrkeys.
Qed.

(** ** The screening pipeline *)

(** *** The matcher decides the language of a pattern *)

Lemma matches_nil_nullable r s : matches r s → s = [] → nullable r = true.
Proof.
  induction 1 as [| | r1 r2 s1 s2 _ IH1 _ IH2 | r1 r2 s _ IH | r1 r2 s _ IH
                 | | r s1 s2 _ _ _ _]; intros Hs; simpl; try done.
  - apply app_eq_nil in Hs as [-> ->]. by rewrite IH1, IH2.
  - by rewrite IH.
  - by rewrite IH, orb_true_r.
Qed.

Lemma nullable_matches r : nullable r = true → matches r [].
Proof.
  induction r as [| | c | r1 IH1 r2 IH2 | r1 IH1 r2 IH2 | r IH]; simpl;
    intros H; try done.
  - constructor.
  - apply andb_true_iff in H as [H1 H2].
    apply (matches_cat _ _ [] []); auto.
  - apply orb_true_iff in H as [H|H];
      [apply matches_alt_l|apply matches_alt_r]; auto.
  - constructor.
Qed.

Lemma deriv_matches a r s : matches (deriv a r) s → matches r (a :: s).
Proof.
  revert s.
  induction r as [| | c | r1 IH1 r2 IH2 | r1 IH1 r2 IH2 | r IH]; simpl;
    intros s H.
  - inversion H.
  - inversion H.
  - destruct (c a) eqn:E; inversion H; subst. by apply matches_chr.
  - destruct (nullable r1) eqn:E.
    + inversion H as [| | | ? ? ? H' | ? ? ? H' | |]; subst.
      * inversion H'; subst.
        apply (matches_cat r1 r2 (a :: _) _); auto.
      * apply (matches_cat r1 r2 [] (a :: s)); auto using nullable_matches.
    + inversion H; subst. apply (matches_cat r1 r2 (a :: _) _); auto.
  - inversion H; subst; [apply matches_alt_l|apply matches_alt_r]; auto.
  - inversion H; subst. apply (matches_star_app r (a :: _) _); auto.
Qed.

Lemma matches_deriv a r s' :
  matches r s' → ∀ s, s' = a :: s → matches (deriv a r) s.
Proof.
  induction 1 as [| c a' Hc | r1 r2 s1 s2 H1 IH1 H2 IH2 | r1 r2 s' _ IH
                 | r1 r2 s' _ IH | | r s1 s2 H1 IH1 H2 IH2];
    intros s Hs; simpl.
  - done.
  - injection Hs as -> <-. rewrite Hc. constructor.
  - destruct s1 as [|a1 s1]; simpl in Hs.
    + rewrite (matches_nil_nullable r1 [] H1 eq_refl).
      apply matches_alt_r. by apply IH2.
    + injection Hs as -> <-.
      destruct (nullable r1); [apply matches_alt_l|];
        apply matches_cat; auto.
  - apply matches_alt_l. by apply IH.
  - apply matches_alt_r. by apply IH.
  - done.
  - destruct s1 as [|a1 s1]; simpl in Hs.
    + by apply IH2.
    + injection Hs as -> <-. apply matches_cat; auto.
Qed.

Lemma match_prefix_spec r s :
  match_prefix r s = true ↔ ∃ m b, s = m ++ b ∧ matches r m.
Proof.
  revert r. induction s as [|a s IH]; intros r; simpl.
  - rewrite orb_false_r. split.
    + intros H. exists [], []. auto using nullable_matches.
    + intros (m & b & Hs & Hm). symmetry in Hs.
      apply app_eq_nil in Hs as [-> ->].
      by apply (matches_nil_nullable r []).
  - rewrite orb_true_iff, IH. split.
    + intros [H|(m & b & -> & Hm)].
      * exists [], (a :: s). auto using nullable_matches.
      * exists (a :: m), b. auto using deriv_matches.
    + intros (m & b & Hs & Hm). destruct m as [|a' m]; simpl in Hs.
      * left. by apply (matches_nil_nullable r []).
      * injection Hs as <- ->. right. exists m, b.
        split; [done|]. by apply (matches_deriv a r (a :: m)).
Qed.

(** [re_search] holds exactly when a substring of the text is in the
    language of the pattern. *)
Lemma re_search_spec r s :
  re_search r s = true ↔ ∃ a m b, s = a ++ m ++ b ∧ matches r m.
Proof.
  induction s as [|c s IH]; cbn [re_search].
  - rewrite orb_false_r, match_prefix_spec. split.
    + intros (m & b & Hs & Hm). by exists [], m, b.
    + intros (a & m & b & Hs & Hm). symmetry in Hs.
      apply app_eq_nil in Hs as [-> Hs]. eauto.
  - rewrite orb_true_iff, match_prefix_spec, IH. split.
    + intros [(m & b & Hs & Hm)|(a & m & b & -> & Hm)].
      * by exists [], m, b.
      * by exists (c :: a), m, b.
    + intros (a & m & b & Hs & Hm). destruct a as [|c' a]; simpl in Hs.
      * left. eauto.
      * injection Hs as <- ->. right. eauto.
Qed.

Lemma re_search_context r before s after :
  re_search r s = true → re_search r (before ++ s ++ after) = true.
Proof.
  rewrite !re_search_spec. intros (a & m & b & -> & Hm).
  exists (before ++ a), m, (b ++ after). split; [|done].
  by rewrite <-!(assoc_L (++)).
Qed.

Lemma existsb_search_context ps before s after :
  existsb (λ pattern, re_search pattern s) ps = true →
  existsb (λ pattern, re_search pattern (before ++ s ++ after)) ps = true.
Proof.
  rewrite !existsb_exists. intros (r & Hr & H).
  exists r. auto using re_search_context.
Qed.

(** *** classify_abstract *)

(** X16. A flag of [classify_abstract] is never lost by context or by letter
    case: when a text has the task flag (the validation flag), so has every
    text that contains it, or a copy of it that differs in letter case only,
    with any text before and after. *)
Theorem classify_abstract_context (before text text' after : list ascii) :
  lower text' = lower text →
  ((classify_abstract text).1 = true →
   (classify_abstract (before ++ text' ++ after)).1 = true) ∧
  ((classify_abstract text).2 = true →
   (classify_abstract (before ++ text' ++ after)).2 = true).
Proof.
  intros Hcase. unfold classify_abstract, lower in *. cbn [fst snd].
  rewrite !fmap_app, Hcase.
  split; apply existsb_search_context.
Qed.

(** *** wilson_ci *)

Lemma Qcinv_nonneg (d : Qc) : (0 <= d)%Qc → (0 <= / d)%Qc.
Proof.
  intros Hd. unfold Qcle, Qcinv, Q2Qc in *. cbn [this] in *.
  rewrite !Qred_correct in *. by apply Qinv_le_0_compat.
Qed.

Lemma Qc_div_nonneg (x d : Qc) : (0 <= x)%Qc → (0 <= d)%Qc → (0 <= x / d)%Qc.
Proof.
  intros Hx Hd. apply Qcmult_nonneg_nonneg; [done|]. by apply Qcinv_nonneg.
Qed.

(** A proportion over a non-empty sample always gets an interval. *)
Lemma wilson_ci_Some (p : Qc) (n : Z) (alpha : Qc) :
  0 < n → (0 <= p)%Qc → (p <= 1)%Qc → is_Some (wilson_ci p n alpha).
Proof.
  intros Hn Hp0 Hp1. unfold wilson_ci.
  set (z := norm_ppf _).
  assert (0 <= Qc_of_Z n)%Qc as HN.
  { rewrite <-Z2Qc_inj_0. apply (proj1 (Z2Qc_inj_le _ _)). lia. }
  assert (0 <= z ^ 2)%Qc as Hzz.
  { simpl. rewrite Qcmult_1_r. clearbody z. qc_nra. }
  rewrite decide_False by lia.
  rewrite decide_False.
  2:{ apply Qc_pos_nonzero. apply Qclt_le_trans with 1%Qc; [done|].
      rewrite <-(Qcplus_0_r 1) at 1. apply Qcplus_le_compat; [done|].
      by apply Qc_div_nonneg. }
  rewrite decide_False; [done|].
  apply Qcle_not_lt. unfold wilson_radicand.
  rewrite <-(Qcplus_0_r 0). apply Qcplus_le_compat.
  - apply Qc_div_nonneg; [|done].
    apply Qcmult_nonneg_nonneg; [done|qc_lra].
  - apply Qc_div_nonneg; [done|].
    apply Qcmult_nonneg_nonneg; [done|].
    simpl. rewrite Qcmult_1_r. by apply Qcmult_nonneg_nonneg.
Qed.

(** *** The synthetic corpus and its summary *)

Lemma length_loc_assign {A} (idx : list nat) (v : A) col :
  length (loc_assign idx v col) = length col.
Proof.
  induction idx as [|i idx IH]; simpl; [done|].
  by rewrite length_insert.
Qed.

Lemma loc_assign_lookup {A} (idx : list nat) (v : A) col i :
  (i < length col)%nat →
  loc_assign idx v col !! i
  = if decide (i ∈ idx) then Some v else col !! i.
Proof.
  intros Hi. induction idx as [|j idx IH].
  - rewrite decide_False; [done|]. apply not_elem_of_nil.
  - change (loc_assign (j :: idx) v col)
      with (<[j := v]> (loc_assign idx v col)).
    destruct (decide (j = i)) as [->|Hne].
    + rewrite list_lookup_insert_eq by by rewrite length_loc_assign.
      rewrite decide_True; [done|]. apply elem_of_cons; auto.
    + rewrite list_lookup_insert_ne by done. rewrite IH.
      destruct (decide (i ∈ idx)) as [Hin|Hin].
      * rewrite decide_True; [done|]. apply elem_of_cons; auto.
      * rewrite decide_False; [done|]. rewrite elem_of_cons.
        intros [->|?]; done.
Qed.

(** A validation abstract replaces the multi-step abstract of its row. *)
Lemma load_corpus_abstracts ms vs :
  load_corpus ms vs = abstract_of ms vs <$> seq 0 (Z.to_nat corpus_n).
Proof.
  apply list_eq. intros i. unfold load_corpus.
  generalize (Z.to_nat corpus_n). intros n.
  destruct (decide (i < n)%nat) as [Hi|Hi].
  - rewrite list_lookup_fmap, lookup_seq_lt by done.
    cbn [fmap option_fmap option_map].
    rewrite loc_assign_lookup
      by by rewrite length_loc_assign, length_replicate.
    rewrite loc_assign_lookup by by rewrite length_replicate.
    rewrite lookup_replicate_2 by done. unfold abstract_of.
    by repeat case_decide.
  - rewrite !lookup_ge_None_2; [done| |].
    + rewrite length_fmap, length_seq. lia.
    + rewrite !length_loc_assign, length_replicate. lia.
Qed.

Lemma bool_sum_fmap {A} (g : A → bool) (l : list A) :
  bool_sum (g <$> l) = Z.of_nat (length (filter (λ x, g x = true) l)).
Proof.
  induction l as [|x l IH]; [done|].
  rewrite fmap_cons, filter_cons. cbn [bool_sum foldr].
  fold (bool_sum (g <$> l)). rewrite IH.
  destruct (g x); case_decide; try done; cbn [length Z.b2z].
  by rewrite Nat2Z.inj_succ, Z.add_1_l.
Qed.

Lemma length_filter_elem_of (l L : list nat) :
  NoDup l → NoDup L → l ⊆ L →
  length (filter (λ x, x ∈ l) L) = length l.
Proof.
  intros Hl HL Hsub. apply Permutation_length, NoDup_Permutation.
  - by apply NoDup_filter.
  - done.
  - intros x. rewrite list_elem_of_filter. split; [by intros []|].
    intros Hx. split; [done|]. by apply Hsub.
Qed.

Lemma length_filter_difference (l k L : list nat) :
  NoDup l → NoDup k → NoDup L → l ⊆ L → k ⊆ l →
  (length (filter (λ x, x ∈ l ∧ x ∉ k) L) + length k = length l)%nat.
Proof.
  intros Hl Hk HL HlL Hkl.
  rewrite <-(length_filter_elem_of l L) by done.
  rewrite <-(length_filter_elem_of k (filter (λ x, x ∈ l) L)).
  2: done. 2: by apply NoDup_filter.
  2:{ intros x Hx. apply list_elem_of_filter. split; [by apply Hkl|].
      by apply HlL, Hkl. }
  rewrite <-(Permutation_length
               (filter_app_complement (λ x, x ∈ k) (filter (λ x, x ∈ l) L))).
  rewrite length_app, !list_filter_filter.
  rewrite Nat.add_comm. f_equal.
  f_equal. apply list_filter_iff. intros x. tauto.
Qed.

(** The multi-step abstract declares a task and mentions no validation; the
    validation abstract mentions a validation and declares no task. *)
Lemma classify_abstract_of ms vs i :
  classify_abstract (abstract_of ms vs i)
  = (bool_decide (i ∈ ms ∧ i ∉ vs), bool_decide (i ∈ vs)).
Proof.
  unfold abstract_of.
  destruct (decide (i ∈ vs)) as [Hv|Hv].
  - rewrite (bool_decide_eq_true_2 (i ∈ vs)) by done.
    rewrite bool_decide_eq_false_2 by tauto. by vm_compute.
  - rewrite (bool_decide_eq_false_2 (i ∈ vs)) by done.
    destruct (decide (i ∈ ms)) as [Hm|Hm].
    + rewrite bool_decide_eq_true_2 by done. by vm_compute.
    + rewrite bool_decide_eq_false_2 by tauto. by vm_compute.
Qed.

(** X18. Whatever rows the two random draws of [load_corpus] select, [main]
    of the screening returns the same counts: 2425 records, 52 task
    declarations and 1 validation mention, with the prevalences 52/2425 and
    1/2425 and their two Wilson intervals.  [int(2425 * 0.0008)] is 1, and
    the validation abstract replaces a multi-step abstract without
    declaring a task itself. *)
Theorem screening_main_counts (multistep_idx validation_idx : list nat) :
  np_random_choice (seq 0 (Z.to_nat corpus_n)) corpus_n_multistep
    multistep_idx →
  np_random_choice multistep_idx corpus_n_validation validation_idx →
  ∃ ci_task ci_validation,
    wilson_ci (Q2Qc (52 # 2425)) 2425 default_alpha = Some ci_task ∧
    wilson_ci (Q2Qc (1 # 2425)) 2425 default_alpha = Some ci_validation ∧
    screening_main multistep_idx validation_idx
    = Some (mkSummary 2425 52 1 (Q2Qc (52 # 2425)) (Q2Qc (1 # 2425))
              ci_task ci_validation).
Proof.
  intros (Hms_sub & Hms_nd & Hms_len) (Hvs_sub & Hvs_nd & Hvs_len).
  change corpus_n_multistep with 53 in Hms_len.
  change corpus_n_validation with 1 in Hvs_len.
  unfold py_len in Hms_len, Hvs_len.
  unfold screening_main.
  rewrite load_corpus_abstracts.
  set (L := seq 0 (Z.to_nat corpus_n)) in *.
  assert (NoDup L) as HL by apply NoDup_seq.
  assert (py_len (abstract_of multistep_idx validation_idx <$> L) = 2425)
    as ->.
  { unfold py_len. rewrite length_fmap. unfold L. by rewrite length_seq. }
  rewrite <-!list_fmap_compose.
  rewrite !bool_sum_fmap.
  assert (length (filter (λ i, ((fst ∘ classify_abstract)
             ∘ abstract_of multistep_idx validation_idx) i = true) L)
          = 52%nat) as ->.
  { rewrite (list_filter_iff _
               (λ i, i ∈ multistep_idx ∧ i ∉ validation_idx)).
    2:{ intros i. unfold compose. rewrite classify_abstract_of.
        cbn [fst]. by rewrite bool_decide_eq_true. }
    pose proof (length_filter_difference multistep_idx validation_idx L
                  Hms_nd Hvs_nd HL Hms_sub Hvs_sub). lia. }
  assert (length (filter (λ i, ((snd ∘ classify_abstract)
             ∘ abstract_of multistep_idx validation_idx) i = true) L)
          = 1%nat) as ->.
  { rewrite (list_filter_iff _ (λ i, i ∈ validation_idx)).
    2:{ intros i. unfold compose. rewrite classify_abstract_of.
        cbn [snd]. by rewrite bool_decide_eq_true. }
    rewrite length_filter_elem_of; [lia|done..|].
    intros i Hi. by apply Hms_sub, Hvs_sub. }
  rewrite decide_False by done.
  assert (Qc_of_Z (Z.of_nat 52) / Qc_of_Z 2425 = Q2Qc (52 # 2425))%Qc
    as -> by by apply Qc_is_canon.
  assert (Qc_of_Z (Z.of_nat 1) / Qc_of_Z 2425 = Q2Qc (1 # 2425))%Qc
    as -> by by apply Qc_is_canon.
  destruct (wilson_ci_Some (Q2Qc (52 # 2425)) 2425 default_alpha)
    as [ci1 H1]; [done..|].
  destruct (wilson_ci_Some (Q2Qc (1 # 2425)) 2425 default_alpha)
    as [ci2 H2]; [done..|].
  exists ci1, ci2. rewrite H1, H2. done.
Qed.

End Benchmark.

(** * Concrete runs *)

(** A record with three horizons, at thresholds 0 and 3/4. *)
Lemma compute_hstar_antitone_witness :
  ∃ h1 h2,
    compute_hstar
      (<[1 := mkEntry 0 1]> (<[6 := mkEntry 0 (Q2Qc (1 # 2))]>
        (<[12 := mkEntry 0 (- 1)]> ∅))) 0%Qc = Ok h1 ∧
    compute_hstar
      (<[1 := mkEntry 0 1]> (<[6 := mkEntry 0 (Q2Qc (1 # 2))]>
        (<[12 := mkEntry 0 (- 1)]> ∅))) (Q2Qc (3 # 4)) = Ok h2 ∧
    h2 ≤ h1.
Proof.
  apply compute_hstar_antitone.
  - intros h [e He].
    destruct (decide (h = 1)) as [->|?]; [lia|].
    destruct (decide (h = 6)) as [->|?]; [lia|].
    destruct (decide (h = 12)) as [->|?]; [lia|].
    by rewrite !lookup_insert_ne, lookup_empty in He.
  - by vm_compute.
Defined.

(** Overwriting index 7 of [series0] leaves the forecast issued at origin 5
    unchanged. *)
Lemma rolling_forecast_causal_witness :
  rolling_y_pred sqrt_floor Qc mean_solve mean_eval series0 5 2
  = rolling_y_pred sqrt_floor Qc mean_solve mean_eval
      (<[7%nat := Qc_of_Z 100]> series0) 5 2.
Proof.
  refine (proj2 (proj2 (proj2
    (rolling_forecast_causal sqrt_floor Qc mean_solve mean_eval
       series0 (<[7%nat := Qc_of_Z 100]> series0) 5 2 _ _)))).
  - lia.
  - intros i Hi. do 5 (destruct i as [|i]; [reflexivity|]). lia.
Defined.

(** [series0] with train fraction 1/2 (split index 5): overwriting index 7,
    inside the test region, leaves the smoothed training signal unchanged. *)
Lemma static_train_signal_blind_witness :
  static_y_train (<[7%nat := Qc_of_Z 100]> series0) (Q2Qc (1 # 2))
  = static_y_train series0 (Q2Qc (1 # 2)).
Proof.
  refine (proj1
    (static_train_signal_blind sqrt_floor Qc mean_solve
       series0 (Q2Qc (1 # 2)) 2 7%nat (Qc_of_Z 100) _)).
  by vm_compute.
Defined.

(** H* of the empty record. *)
Lemma compute_hstar_largest_witness : compute_hstar ∅ 0%Qc = Ok 0.
Proof. exact (proj2 (proj2 (compute_hstar_largest ∅ 0%Qc))). Defined.

(** The skill at squared errors 1 and 4, and the skill the static run on
    [series0] (train fraction 1/2, horizons 1..4, lag order 2) records at
    horizon 1. *)
Lemma skill_score_policy_witness :
  skill_score 1%Qc (Qc_of_Z 4) = Ok (1 - 1 / Qc_of_Z 4)%Qc
  ∧ ∃ y_pred y_true y_persist,
      static_y_pred sqrt_floor Qc mean_solve mean_eval
        series0 (Q2Qc (1 # 2)) 2 = Ok y_pred
      ∧ py_index (py_slice series0
                    (Some (static_split_idx series0 (Q2Qc (1 # 2)))) None)
          (1 - 1) = Ok y_true
      ∧ py_index series0 (static_split_idx series0 (Q2Qc (1 # 2)) - 1)
        = Ok y_persist
      ∧ skill (default (mkEntry 0 0)
                 (ok_or ∅ (static_leaky_protocol sqrt_floor Qc mean_solve
                             mean_eval series0 (Q2Qc (1 # 2)) [1; 2; 3; 4] 2)
                  !! 1))
        = if decide (0 < (y_persist - y_true) ^ 2)%Qc
          then (1 - (y_pred - y_true) ^ 2 / (y_persist - y_true) ^ 2)%Qc
          else 0%Qc.
Proof.
  pose proof (skill_score_policy sqrt_floor Qc mean_solve mean_eval)
    as (Hpos & _ & _ & _ & _ & _ & Hstatic & _).
  split.
  - apply Hpos. by vm_compute.
  - refine (Hstatic series0 (Q2Qc (1 # 2)) [1; 2; 3; 4] 2 _ _ 1 _ _);
      by vm_compute.
Defined.

(** [series0] with a warm-up of 9 and horizons up to 2: no origin. *)
Lemma rolling_empty_result_witness :
  rolling_origins (py_len series0) [1; 2] 9 2 = Ok []
  ∧ rolling_origin_causal_protocol sqrt_floor Qc mean_solve mean_eval
      series0 [1; 2] 9 2 2 = Ok ∅
  ∧ compute_hstar ∅ 0%Qc = Ok 0.
Proof.
  apply (rolling_empty_result sqrt_floor Qc mean_solve mean_eval
           series0 [1; 2] 9 2 2 2 0%Qc).
  - reflexivity.
  - lia.
  - by vm_compute.
Defined.

(** [series0] with train fraction 1/2 and lag order 2: of the horizons 1..4
    exactly 1 and 2 are retained. *)
Lemma static_retained_horizons_witness :
  ∃ fitted results,
    fit_model sqrt_floor Qc mean_solve
      (static_y_train series0 (Q2Qc (1 # 2))) 2 = Ok fitted
    ∧ static_leaky_protocol sqrt_floor Qc mean_solve mean_eval
        series0 (Q2Qc (1 # 2)) [1; 2; 3; 4] 2 = Ok results
    ∧ (∀ h, is_Some (results !! h) ↔ h ∈ [1; 2; 3; 4] ∧ 5 + 2 + h < 10)
    ∧ (∀ h e, results !! h = Some e →
         ∃ y_pred y_true y_persist,
           static_forecast Qc mean_eval series0 5 2 fitted = Ok y_pred
           ∧ series0 !! Z.to_nat (5 + h - 1) = Some y_true
           ∧ series0 !! Z.to_nat (5 - 1) = Some y_persist
           ∧ e = mkEntry (sqrt_floor ((y_pred - y_true) ^ 2)%Qc)
                   (if decide (0 < (y_persist - y_true) ^ 2)%Qc
                    then (1 - (y_pred - y_true) ^ 2
                              / (y_persist - y_true) ^ 2)%Qc
                    else 0%Qc)).
Proof.
  refine (proj2 (proj2 (proj2
    (static_retained_horizons sqrt_floor Qc mean_solve mean_eval
       series0 (Q2Qc (1 # 2)) [1; 2; 3; 4] 2 _ _))) _).
  - by vm_compute.
  - repeat constructor; lia.
  - by vm_compute.
Defined.

(** [series0] with origins 4 and 6, horizons 1 and 2, lag order 2. *)
Lemma rolling_summary_mean_witness :
  ∃ summary,
    rolling_origin_causal_protocol sqrt_floor Qc mean_solve mean_eval
      series0 [1; 2] 4 2 2 = Ok summary
    ∧ ∀ h,
        (h ∉ [1; 2] → summary !! h = None)
        ∧ (h ∈ [1; 2] →
           ∃ samples,
             Forall2 (λ o s, sample_at sqrt_floor Qc mean_solve mean_eval
                               series0 2 o h = Ok s)
               (filter (λ o, o + h < py_len series0) [4; 6]) samples
             ∧ summary !! h =
               if decide (samples = []) then None
               else Some (mkEntry (np_mean (rmse <$> samples))
                            (np_mean (skill <$> samples)))).
Proof.
  destruct (rolling_origin_causal_protocol sqrt_floor Qc mean_solve mean_eval
              series0 [1; 2] 4 2 2) as [summary|e] eqn:Hrun;
    [|by vm_compute in Hrun].
  exists summary. split; [reflexivity|].
  apply (rolling_summary_mean sqrt_floor Qc mean_solve mean_eval
           series0 [1; 2] 4 2 2 [4; 6] summary); [reflexivity|exact Hrun].
Defined.

(** [series0] with warm-up 4, step 2, horizons 1 and 2. *)
Lemma rolling_every_horizon_present_witness :
  ∃ o os,
    rolling_origins (py_len series0) [1; 2] 4 2 = Ok (o :: os)
    ∧ (∀ o' h, o' ∈ o :: os → h ∈ [1; 2] →
         o' < py_len series0 - 2 ∧ ¬ py_len series0 ≤ o' + h)
    ∧ (∀ h, h ∈ [1; 2] →
         filter (λ o', o' + h < py_len series0) (o :: os) = o :: os)
    ∧ (∀ summary,
         rolling_origin_causal_protocol sqrt_floor Qc mean_solve mean_eval
           series0 [1; 2] 4 2 2 = Ok summary →
         (∀ h, is_Some (summary !! h) ↔ h ∈ [1; 2])
         ∧ ∀ o' h, o' ∈ o :: os → h ∈ [1; 2] →
             ∃ e, sample_at sqrt_floor Qc mean_solve mean_eval
                    series0 2 o' h = Ok e)
    ∧ (1 ≤ 2 < 4 → Forall (λ h, 1 ≤ h) [1; 2] →
       ∃ summary,
         rolling_origin_causal_protocol sqrt_floor Qc mean_solve mean_eval
           series0 [1; 2] 4 2 2 = Ok summary).
Proof.
  apply (rolling_every_horizon_present sqrt_floor Qc mean_solve mean_eval
           series0 [1; 2] 4 2 2 2).
  - reflexivity.
  - lia.
  - by vm_compute.
Defined.

(** The smoothed training signal of [series0] at train fraction 1/2, before
    and after the value at index 7 is overwritten, and the full smoothed
    series, which does change from index 7 on. *)
Example static_y_train_series0 :
  this <$> static_y_train series0 (Q2Qc (1 # 2))
  = [3; 2; 8 # 3; 9 # 4; 14 # 5]%Q
  ∧ this <$> static_y_train (<[7%nat := Qc_of_Z 100]> series0) (Q2Qc (1 # 2))
    = [3; 2; 8 # 3; 9 # 4; 14 # 5]%Q
  ∧ this <$> drop 5 (rolling_mean 24 series0)
    = [23 # 6; 25 # 7; 31 # 8; 4; 39 # 10]%Q
  ∧ this <$> drop 5 (rolling_mean 24 (<[7%nat := Qc_of_Z 100]> series0))
    = [23 # 6; 25 # 7; 125 # 8; 130 # 9; 133 # 10]%Q.
Proof. by vm_compute. Qed.

(** H* of a record with three horizons at two thresholds. *)
Example compute_hstar_three_horizons :
  compute_hstar
    (<[1 := mkEntry 0 1]> (<[6 := mkEntry 0 (Q2Qc (1 # 2))]>
      (<[12 := mkEntry 0 (- 1)]> ∅))) 0%Qc = Ok 6
  ∧ compute_hstar
      (<[1 := mkEntry 0 1]> (<[6 := mkEntry 0 (Q2Qc (1 # 2))]>
        (<[12 := mkEntry 0 (- 1)]> ∅))) (Q2Qc (3 # 4)) = Ok 1.
Proof. by vm_compute. Qed.

(** ** Where two statements of the specification fail *)

(** C5 as stated, for every step.  On [series0] with horizons 1 and 5 and
    warm-up 8, so that [W_min >= n - max(horizons)]: with step 0 the
    protocol raises, and with step -2 the origins are 8 and 6 and the result
    has an entry for horizon 1. *)
Lemma rolling_empty_result_counterexample :
  py_max [1; 5] = Ok 5
  ∧ py_len series0 - 5 ≤ 8
  ∧ rolling_origin_causal_protocol sqrt_floor Qc mean_solve mean_eval
      series0 [1; 5] 8 0 2 = Raise ValueError
  ∧ rolling_origins (py_len series0) [1; 5] 8 (-2) = Ok [8; 6]
  ∧ ∃ summary,
      rolling_origin_causal_protocol sqrt_floor Qc mean_solve mean_eval
        series0 [1; 5] 8 (-2) 2 = Ok summary
      ∧ is_Some (summary !! 1).
Proof.
  split; [done|]. split; [by vm_compute|]. split; [by vm_compute|].
  split; [by vm_compute|].
  eexists. split; [by vm_compute|]. vm_compute. by eexists.
Qed.

(** C6 as stated, with the split index [floor(n * train_frac)].  On 100
    points with train fraction 0.29 and lag order 2 that index is 29 and
    leaves horizon 69 out, but the float product is 28.999999999999996, the
    protocol splits at 28 and keeps the horizon.  On the 10 points of
    [series0] with the double nearest to 0.7 and lag order 1 the exact
    product is below 7 and [floor] would keep horizon 2, but the float
    product rounds to 7.0 and the protocol leaves the horizon out. *)
Lemma static_retained_horizons_counterexample :
  (static_split_idx series100 (Q2Qc (29 # 100)) = 28
   ∧ Qfloor (Qc_of_Z (py_len series100) * Q2Qc (29 # 100))%Qc = 29
   ∧ ¬ 29 + 2 + 69 < py_len series100
   ∧ ∃ results,
       static_leaky_protocol sqrt_floor Qc mean_solve mean_eval
         series100 (Q2Qc (29 # 100)) [69] 2 = Ok results
       ∧ is_Some (results !! 69))
  ∧ (binary64 (Q2Qc (3152519739159347 # 4503599627370496))
     = Q2Qc (3152519739159347 # 4503599627370496)
     ∧ static_split_idx series0 (Q2Qc (3152519739159347 # 4503599627370496))
       = 7
     ∧ Qfloor (Qc_of_Z (py_len series0)
               * Q2Qc (3152519739159347 # 4503599627370496))%Qc = 6
     ∧ 6 + 1 + 2 < py_len series0
     ∧ ∃ results,
         static_leaky_protocol sqrt_floor Qc mean_solve mean_eval
           series0 (Q2Qc (3152519739159347 # 4503599627370496)) [2] 1
         = Ok results
         ∧ results !! 2 = None).
Proof.
  split.
  - split; [by vm_compute|]. split; [by vm_compute|].
    split; [by vm_compute|].
    eexists. split; [by vm_compute|]. vm_compute. by eexists.
  - split; [by apply Qc_is_canon|]. split; [by vm_compute|].
    split; [by vm_compute|]. split; [by vm_compute|].
    eexists. split; [by vm_compute|]. by vm_compute.
Qed.

(** ** Runs for the further properties *)


(** The static run on [series0] (train fraction 1/2, horizons 1..4, lag
    order 2) and its entry at horizon 1. *)
Lemma static_skill_bound_witness :
  let results :=
    ok_or ∅ (static_leaky_protocol sqrt_floor Qc mean_solve mean_eval
               series0 (Q2Qc (1 # 2)) [1; 2; 3; 4] 2) in
  let e := default (mkEntry 0 0) (results !! 1) in
  (skill e <= 1)%Qc
  ∧ ∃ y_pred y_true y_persist,
      static_y_pred sqrt_floor Qc mean_solve mean_eval
        series0 (Q2Qc (1 # 2)) 2 = Ok y_pred
      ∧ py_index (py_slice series0
                    (Some (static_split_idx series0 (Q2Qc (1 # 2)))) None)
          (1 - 1) = Ok y_true
      ∧ py_index series0 (static_split_idx series0 (Q2Qc (1 # 2)) - 1)
        = Ok y_persist
      ∧ ((0 < skill e)%Qc
         ↔ ((y_pred - y_true) ^ 2 < (y_persist - y_true) ^ 2)%Qc).
Proof.
  intros results e.
  refine (static_skill_bound sqrt_floor Qc mean_solve mean_eval
            series0 (Q2Qc (1 # 2)) [1; 2; 3; 4] 2 results _ 1 e _);
    by vm_compute.
Defined.

(** The rolling run on [series0] (horizons 1 and 2, warm-up 4, step 2, lag
    order 2) and its entry at horizon 1. *)
Lemma rolling_skill_bound_witness :
  let summary :=
    ok_or ∅ (rolling_origin_causal_protocol sqrt_floor Qc mean_solve
               mean_eval series0 [1; 2] 4 2 2) in
  let e := default (mkEntry 0 0) (summary !! 1) in
  (skill e <= 1)%Qc.
Proof.
  intros summary e.
  refine (rolling_skill_bound sqrt_floor Qc mean_solve mean_eval
            series0 [1; 2] 4 2 2 summary _ 1 e _); by vm_compute.
Defined.

(** Horizons 1 and 2 of the static run on [series0]. *)
Lemma static_common_prediction_witness :
  let results :=
    ok_or ∅ (static_leaky_protocol sqrt_floor Qc mean_solve mean_eval
               series0 (Q2Qc (1 # 2)) [1; 2; 3; 4] 2) in
  let e1 := default (mkEntry 0 0) (results !! 1) in
  let e2 := default (mkEntry 0 0) (results !! 2) in
  ∃ y_pred y_persist y_true1 y_true2,
    static_y_pred sqrt_floor Qc mean_solve mean_eval
      series0 (Q2Qc (1 # 2)) 2 = Ok y_pred
    ∧ py_index series0 (static_split_idx series0 (Q2Qc (1 # 2)) - 1)
      = Ok y_persist
    ∧ py_index (py_slice series0
                  (Some (static_split_idx series0 (Q2Qc (1 # 2)))) None)
        (1 - 1) = Ok y_true1
    ∧ py_index (py_slice series0
                  (Some (static_split_idx series0 (Q2Qc (1 # 2)))) None)
        (2 - 1) = Ok y_true2
    ∧ score sqrt_floor y_pred y_true1 y_persist = Ok e1
    ∧ score sqrt_floor y_pred y_true2 y_persist = Ok e2
    ∧ (y_true1 = y_true2 → e1 = e2).
Proof.
  intros results e1 e2.
  refine (static_common_prediction sqrt_floor Qc mean_solve mean_eval
            series0 (Q2Qc (1 # 2)) [1; 2; 3; 4] 2 results _ 1 2 e1 e2 _ _);
    by vm_compute.
Defined.

(** Horizons 1 and 2 at origin 4 of the rolling run on [series0] (warm-up
    4, step 2, lag order 2). *)
Lemma rolling_common_prediction_witness :
  ∃ s1 s2 y_pred y_persist y_true1 y_true2,
    s1 ∈ recorded sqrt_floor Qc mean_solve mean_eval series0 2 [1; 2] [4; 6] 1
    ∧ s2 ∈ recorded sqrt_floor Qc mean_solve mean_eval series0 2 [1; 2]
             [4; 6] 2
    ∧ rolling_y_pred sqrt_floor Qc mean_solve mean_eval series0 4 2 = Ok y_pred
    ∧ py_index series0 (4 - 1) = Ok y_persist
    ∧ py_index series0 (4 + 1 - 1) = Ok y_true1
    ∧ py_index series0 (4 + 2 - 1) = Ok y_true2
    ∧ score sqrt_floor y_pred y_true1 y_persist = Ok s1
    ∧ score sqrt_floor y_pred y_true2 y_persist = Ok s2
    ∧ (y_true1 = y_true2 → s1 = s2).
Proof.
  refine (proj2
    (rolling_common_prediction sqrt_floor Qc mean_solve mean_eval
       series0 [1; 2] 4 2 2 [4; 6]
       (ok_or ∅ (rolling_origin_causal_protocol sqrt_floor Qc mean_solve
                   mean_eval series0 [1; 2] 4 2 2)) _ _) 4 1 2 _ _ _ _ _).
  - by vm_compute.
  - by vm_compute.
  - apply (bool_decide_unpack _). by vm_compute.
  - apply (bool_decide_unpack _). by vm_compute.
  - apply (bool_decide_unpack _). by vm_compute.
  - by vm_compute.
  - by vm_compute.
Defined.

(** Overwriting index 8 of [series0]: beyond [5 + max(2, 2)], so the static
    run (split index 5, lag order 2, horizons 1 and 2) is unchanged. *)
Lemma static_protocol_agree_witness :
  static_leaky_protocol sqrt_floor Qc mean_solve mean_eval
    series0 (Q2Qc (1 # 2)) [1; 2] 2
  = static_leaky_protocol sqrt_floor Qc mean_solve mean_eval
      (<[8%nat := Qc_of_Z 100]> series0) (Q2Qc (1 # 2)) [1; 2] 2.
Proof.
  apply (static_protocol_agree sqrt_floor Qc mean_solve mean_eval
           series0 (<[8%nat := Qc_of_Z 100]> series0) (Q2Qc (1 # 2))
           [1; 2] 2 2).
  - reflexivity.
  - by vm_compute.
  - lia.
  - repeat constructor; lia.
  - intros i Hi. change (static_split_idx series0 (Q2Qc (1 # 2))) with 5 in Hi.
    do 7 (destruct i as [|i]; [reflexivity|]). lia.
Defined.

(** Overwriting the last value of [series0] leaves the rolling run
    unchanged. *)
Lemma rolling_last_value_unused_witness :
  rolling_origin_causal_protocol sqrt_floor Qc mean_solve mean_eval
    series0 [1; 2] 4 2 2
  = rolling_origin_causal_protocol sqrt_floor Qc mean_solve mean_eval
      (<[9%nat := Qc_of_Z 100]> series0) [1; 2] 4 2 2.
Proof.
  apply (rolling_last_value_unused sqrt_floor Qc mean_solve mean_eval
           series0 (<[9%nat := Qc_of_Z 100]> series0) [1; 2] 4 2 2).
  - reflexivity.
  - lia.
  - lia.
  - repeat constructor; lia.
  - intros i Hi. change (py_len series0) with 10 in Hi.
    do 9 (destruct i as [|i]; [reflexivity|]). lia.
Defined.

(** The static protocol on [series0] with no horizon. *)
Lemma rolling_degenerate_arguments_witness :
  static_leaky_protocol sqrt_floor Qc mean_solve mean_eval
    series0 (Q2Qc (1 # 2)) [] 2 = Ok ∅.
Proof.
  apply (proj2 (proj2
    (rolling_degenerate_arguments sqrt_floor Qc mean_solve mean_eval)));
    by vm_compute.
Defined.

(** [series0] with warm-up 4 and lag order 2. *)
Lemma rolling_returns_iff_witness :
  ∃ summary,
    rolling_origin_causal_protocol sqrt_floor Qc mean_solve mean_eval
      series0 [1; 2] 4 2 2 = Ok summary.
Proof.
  apply (proj1 (rolling_returns_iff sqrt_floor Qc mean_solve mean_eval
                  series0 [1; 2] 4 2 2 2 eq_refl ltac:(lia)
                  ltac:(repeat constructor; lia) ltac:(by vm_compute))).
  lia.
Defined.

(** [series0] walked downwards from origin 8 in steps of 2, horizons 1
    and 5. *)
Lemma rolling_negative_step_witness :
  let summary :=
    ok_or ∅ (rolling_origin_causal_protocol sqrt_floor Qc mean_solve
               mean_eval series0 [1; 5] 8 (-2) 2) in
  summary !! 5 = None ∧ (8 ≤ py_len series0 - 5 → summary = ∅).
Proof.
  intros summary.
  apply (rolling_negative_step sqrt_floor Qc mean_solve mean_eval
           series0 [1; 5] 8 (-2) 2 5 summary).
  - reflexivity.
  - lia.
  - by vm_compute.
Defined.

(** H* of the static run on [series0]. *)
Lemma hstar_of_protocol_results_witness :
  let results :=
    ok_or ∅ (static_leaky_protocol sqrt_floor Qc mean_solve mean_eval
               series0 (Q2Qc (1 # 2)) [1; 2; 3; 4] 2) in
  let hstar := ok_or 0 (compute_hstar results 0%Qc) in
  hstar = 0
  ∨ (hstar ∈ [1; 2; 3; 4]
     ∧ static_split_idx series0 (Q2Qc (1 # 2)) + 2 + hstar < py_len series0).
Proof.
  intros results hstar.
  apply (proj1 (hstar_of_protocol_results sqrt_floor Qc mean_solve mean_eval)
           series0 (Q2Qc (1 # 2)) [1; 2; 3; 4] 2 results 0%Qc hstar);
    by vm_compute.
Defined.

(** The rolling protocol with its defaults on the short [series0]. *)
Lemma rolling_default_arguments_witness :
  rolling_origin_causal_protocol sqrt_floor Qc mean_solve mean_eval
    series0 default_horizons default_W_min default_step default_p = Ok ∅.
Proof.
  apply (proj1 (rolling_default_arguments sqrt_floor Qc mean_solve mean_eval
                  series0)).
  by vm_compute.
Defined.

(** The static protocol with its defaults on a series of 40 zeros. *)
Lemma static_default_arguments_witness :
  ∃ results,
    static_leaky_protocol sqrt_floor Qc mean_solve mean_eval
      (replicate 40 0%Qc) default_train_frac default_horizons default_p
    = Ok results
    ∧ ∀ h, is_Some (results !! h)
           ↔ h ∈ default_horizons
             ∧ 3 * py_len (replicate 40 0%Qc) / 4 + 24 + h
               < py_len (replicate 40 0%Qc).
Proof.
  apply (proj1 (proj2 (proj2
    (static_default_arguments sqrt_floor Qc mean_solve mean_eval
       (replicate 40 0%Qc))))).
  by vm_compute.
Defined.

(** The inflation of a static skill 1/2 over a rolling skill 1/4. *)
Lemma inflation_meaning_witness :
  inflation_of (Num (Q2Qc (1 # 2))) (Num (Q2Qc (1 # 4)))
  = Num ((Q2Qc (1 # 2) / Q2Qc (1 # 4) - 1) * Qc_of_Z 100)%Qc.
Proof.
  apply (proj1 (inflation_meaning (Q2Qc (1 # 2)) (Q2Qc (1 # 4)))).
  by vm_compute.
Defined.

(** [main] on a series of 17,520 zeros. *)
Lemma main_by_series_length_witness :
  ∃ hstar_static hstar_rolling table,
    main sqrt_floor Qc mean_solve mean_eval (replicate (Z.to_nat 17520) 0%Qc)
    = Ok (hstar_static, hstar_rolling, table)
    ∧ hstar_static ∈ 0 :: default_horizons
    ∧ hstar_rolling ∈ 0 :: default_horizons
    ∧ horizon_h <$> table = default_horizons
    ∧ Forall (λ row, ∃ ss rs sr rr,
                static_skill row = Num ss ∧ rolling_skill row = Num rs
                ∧ static_rmse row = Num sr ∧ rolling_rmse row = Num rr
                ∧ inflation row = inflation_of (Num ss) (Num rs))
        table.
Proof.
  apply (proj2 (proj2
    (main_by_series_length sqrt_floor Qc mean_solve mean_eval
       (replicate (Z.to_nat 17520) 0%Qc)))).
  unfold py_len. rewrite length_replicate. lia.
Defined.

(** ** Runs of the screening pipeline *)

(** A phrase in capitals inside a sentence. *)
Lemma classify_abstract_context_witness :
  ((classify_abstract (chars "Walk-Forward")).1 = true →
   (classify_abstract (chars "we use " ++ chars "WALK-FORWARD"
                       ++ chars " testing")).1 = true) ∧
  ((classify_abstract (chars "Walk-Forward")).2 = true →
   (classify_abstract (chars "we use " ++ chars "WALK-FORWARD"
                       ++ chars " testing")).2 = true).
Proof.
  apply (classify_abstract_context (chars "we use ") (chars "Walk-Forward")
           (chars "WALK-FORWARD") (chars " testing")).
  by vm_compute.
Defined.

(** The rows 100 to 152 drawn as multi-step papers, row 120 as the
    validation paper. *)
Lemma screening_main_counts_witness :
  ∃ ci_task ci_validation,
    wilson_ci sqrt_floor const_ppf (Q2Qc (52 # 2425)) 2425 default_alpha
    = Some ci_task ∧
    wilson_ci sqrt_floor const_ppf (Q2Qc (1 # 2425)) 2425 default_alpha
    = Some ci_validation ∧
    screening_main sqrt_floor const_ppf (seq 100 53) [120%nat]
    = Some (mkSummary 2425 52 1 (Q2Qc (52 # 2425)) (Q2Qc (1 # 2425))
              ci_task ci_validation).
Proof.
  apply (screening_main_counts sqrt_floor const_ppf (seq 100 53) [120%nat]).
  - split; [|split].
    + apply (bool_decide_unpack _). by vm_compute.
    + apply (bool_decide_unpack _). by vm_compute.
    + by vm_compute.
  - split; [|split].
    + apply (bool_decide_unpack _). by vm_compute.
    + apply (bool_decide_unpack _). by vm_compute.
    + by vm_compute.
Defined.
